(** * Availability writer: [scripts/scrape_availability.py]

    A shallow embedding of the script that seeds an availability map from
    [data/catalog.json], applies the built-in override table, applies the
    optional [data/overrides.json] on top and writes [data/availability.json].

    Conventions of the embedding:
    - a value read by [json.load] is a [json] tree; a Python [dict] read from
      a file is the list of its items in iteration (insertion) order;
    - the working dictionary [availability] is a finite map; its keys are
      Python hashable values up to Python's key equality ([pykey]);
    - a raised exception is the left summand of [result]; an in-place update
      that raises half-way returns the state reached together with the
      exception;
    - a [string] is read as a sequence of characters. *)

From Stdlib Require Import ZArith String Ascii List SpecFloat.
From stdpp Require Import base option list gmap strings pretty.

Local Open Scope Z_scope.
#[local] Set Warnings "-register-all".

(** ** Python values and exceptions *)

Inductive json : Type :=
  | JNull
  | JBool (b : bool)
  | JInt (z : Z)
  | JFloat (f : spec_float)
  | JStr (s : string)
  | JArr (elems : list json)
  | JObj (members : list (string * json)).

Inductive exn : Type :=
  | FileNotFoundError
  | JSONDecodeError
  | AttributeError
  | KeyError
  | TypeError.

Definition result (A : Type) : Type := exn + A.

Definition raise {A} (e : exn) : result A := inl e.

#[global] Instance result_ret : MRet result := fun A x => inr x.
#[global] Instance result_bind : MBind result :=
  fun A B f m => match m with inl e => inl e | inr x => f x end.

(** [bool(val)] for a value that came out of [json.load]. *)
Definition truthy (val : json) : bool :=
  match val with
  | JNull => false
  | JBool b => b
  | JInt z => negb (z =? 0)
  | JFloat (S754_zero _) => false
  | JFloat _ => true
  | JStr s => negb (String.eqb s "")
  | JArr elems => match elems with [] => false | _ => true end
  | JObj members => match members with [] => false | _ => true end
  end.

(** ** Dictionary keys

    Python compares dictionary keys with [==] (after [hash]): [True], [1] and
    [1.0] are one key, [0], [0.0] and [-0.0] are one key, a string equals
    only itself. A key is kept in a canonical form for which Leibniz
    equality is Python's key equality. *)

Inductive pykey : Type :=
  | KStr (s : string)
  | KNone
  | KInt (z : Z)
  | KFloat (f : spec_float).

(** The integer a float equals, if any. *)
Definition float_integral (f : spec_float) : option Z :=
  match f with
  | S754_zero _ => Some 0
  | S754_finite sgn m e =>
      let mag :=
        if 0 <=? e then Some (Z.pos m * 2 ^ e)
        else if Z.pos m mod 2 ^ (- e) =? 0 then Some (Z.pos m / 2 ^ (- e))
        else None in
      (fun v => if sgn then - v else v) <$> mag
  | S754_infinity _ | S754_nan => None
  end.

(** [hash(x)]: lists and dicts are unhashable. *)
Definition hash_key (x : json) : result pykey :=
  match x with
  | JStr s => mret (KStr s)
  | JNull => mret KNone
  | JBool b => mret (KInt (if b then 1 else 0))
  | JInt z => mret (KInt z)
  | JFloat f => mret (match float_integral f with
                      | Some z => KInt z
                      | None => KFloat f
                      end)
  | JArr _ | JObj _ => raise TypeError
  end.

#[global] Instance spec_float_eq_dec : EqDecision spec_float.
Proof. solve_decision. Defined.

#[global] Instance pykey_eq_dec : EqDecision pykey.
Proof. solve_decision. Defined.

Definition spec_float_code (f : spec_float)
  : bool + bool + unit + bool * positive * Z :=
  match f with
  | S754_zero s => inl (inl (inl s))
  | S754_infinity s => inl (inl (inr s))
  | S754_nan => inl (inr tt)
  | S754_finite s m e => inr (s, m, e)
  end.

Definition spec_float_decode (c : bool + bool + unit + bool * positive * Z)
  : spec_float :=
  match c with
  | inl (inl (inl s)) => S754_zero s
  | inl (inl (inr s)) => S754_infinity s
  | inl (inr _) => S754_nan
  | inr (s, m, e) => S754_finite s m e
  end.

#[global] Instance spec_float_countable : Countable spec_float.
Proof.
  apply (inj_countable' spec_float_code spec_float_decode).
  intros []; reflexivity.
Defined.

Definition pykey_code (k : pykey) : string + unit + Z + spec_float :=
  match k with
  | KStr s => inl (inl (inl s))
  | KNone => inl (inl (inr tt))
  | KInt z => inl (inr z)
  | KFloat f => inr f
  end.

Definition pykey_decode (c : string + unit + Z + spec_float) : pykey :=
  match c with
  | inl (inl (inl s)) => KStr s
  | inl (inl (inr _)) => KNone
  | inl (inr z) => KInt z
  | inr f => KFloat f
  end.

#[global] Instance pykey_countable : Countable pykey.
Proof.
  apply (inj_countable' pykey_code pykey_decode).
  intros []; reflexivity.
Defined.

(** The working dictionary: style -> size -> bool. *)
Abbreviation sizes := (gmap pykey bool).
Abbreviation availability := (gmap pykey (gmap pykey bool)).

(** ** Dynamic operations on values *)

(** [d.items()] *)
Definition items (d : json) : result (list (string * json)) :=
  match d with
  | JObj members => mret members
  | _ => raise AttributeError
  end.

(** Lookup of a key in the items of a dict. *)
Fixpoint assoc (members : list (string * json)) (key : string) : option json :=
  match members with
  | [] => None
  | (k, v) :: rest => if decide (k = key) then Some v else assoc rest key
  end.

(** [d.get(key, dflt)] *)
Definition get (d : json) (key : string) (dflt : json) : result json :=
  match d with
  | JObj members => mret (default dflt (assoc members key))
  | _ => raise AttributeError
  end.

(** [x[key]] for a string [key]: only a dict can be subscripted by a string. *)
Definition getitem (x : json) (key : string) : result json :=
  match x with
  | JObj members =>
      match assoc members key with
      | Some v => mret v
      | None => raise KeyError
      end
  | _ => raise TypeError
  end.

Fixpoint chars (s : string) : list json :=
  match s with
  | EmptyString => []
  | String c rest => JStr (String c EmptyString) :: chars rest
  end.

(** [iter(x)]: a list yields its elements, a string its characters, a dict
    its keys; nothing else read from JSON is iterable. *)
Definition iter (x : json) : result (list json) :=
  match x with
  | JArr elems => mret elems
  | JStr s => mret (chars s)
  | JObj members => mret (JStr <$> members.*1)
  | _ => raise TypeError
  end.

(** ** Files and paths *)

(** What is found at a path: nothing, something [json.load] rejects, or a
    JSON document. *)
Inductive file : Type :=
  | Missing
  | Unparseable
  | Holds (doc : json).

(** [os.path.exists(path)] *)
Definition exists_ (f : file) : bool :=
  match f with Missing => false | _ => true end.

Definition load_json (f : file) : result json :=
  match f with
  | Missing => raise FileNotFoundError
  | Unparseable => raise JSONDecodeError
  | Holds doc => mret doc
  end.

(** [os.path.join(dir, name)] for a relative [name]. *)
Definition join (dir name : string) : string :=
  match last (list_ascii_of_string dir) with
  | None => name
  | Some c => if decide (c = "/"%char) then dir +:+ name
              else dir +:+ "/" +:+ name
  end.

(** ** Built-in overrides for all styles *)

Definition all_sizes_true : json :=
  JObj [("I", JBool true); ("T", JBool true); ("S", JBool true);
        ("M", JBool true); ("L", JBool true); ("XL", JBool true);
        ("XXL", JBool true)]%string.

Definition BUILTIN_OVERRIDES : json :=
  JObj [("sapphire",
         JObj [("I", JBool true); ("T", JBool false); ("S", JBool false);
               ("M", JBool false); ("L", JBool true); ("XL", JBool true);
               ("XXL", JBool true)]);
        ("bliss", all_sizes_true);
        ("onyx", all_sizes_true);
        ("leopard", all_sizes_true);
        ("tiger", all_sizes_true);
        ("blueblack", all_sizes_true);
        ("skyblue", JObj [("T", JBool true); ("S", JBool true)]);
        ("purple", JObj [("M", JBool true)]);
        ("partybag", JObj [("ONESIZE", JBool true)])]%string.

(** ** merge_overrides *)

(** [base[style_id][sz] = v], for a [style_id] that is in [base]. *)
Definition setitem2 (base : availability) (style_id sz : pykey) (v : bool)
  : availability :=
  <[style_id := <[sz := v]> (default ∅ (base !! style_id))]> base.

(** The inner loop over [size_map.items()]. *)
Fixpoint merge_sizes (base : availability) (style_id : string)
    (size_items : list (string * json)) : availability :=
  match size_items with
  | [] => base
  | (sz, val) :: rest =>
      merge_sizes (setitem2 base (KStr style_id) (KStr sz) (truthy val))
                  style_id rest
  end.

(** [if style_id not in base: base[style_id] = {}] *)
Definition ensure_style (base : availability) (style_id : string)
  : availability :=
  if decide (is_Some (base !! KStr style_id)) then base
  else <[KStr style_id := ∅]> base.

(** The outer loop over [extra.items()]. The merge is in place: when
    [size_map.items()] raises, the entries already written stay written. *)
Fixpoint merge_styles (base : availability) (extra_items : list (string * json))
  : availability * option exn :=
  match extra_items with
  | [] => (base, None)
  | (style_id, size_map) :: rest =>
      let base := ensure_style base style_id in
      match items size_map with
      | inl e => (base, Some e)
      | inr size_items => merge_styles (merge_sizes base style_id size_items) rest
      end
  end.

Definition merge_overrides (base : availability) (extra : json)
  : availability * option exn :=
  match items extra with
  | inl e => (base, Some e)
  | inr extra_items => merge_styles base extra_items
  end.

(** ** main *)

Record datetime : Type := {
  year : N; month : N; day : N; hour : N; minute : N; second : N
}.

Definition two_digits (n : N) : string :=
  if (n <? 10)%N then "0" +:+ pretty n else pretty n.

(** [strftime("%Y-%m-%dT%H:%M:%SZ")] *)
Definition strftime (t : datetime) : string :=
  pretty (year t) +:+ "-" +:+ two_digits (month t) +:+ "-"
    +:+ two_digits (day t) +:+ "T" +:+ two_digits (hour t) +:+ ":"
    +:+ two_digits (minute t) +:+ ":" +:+ two_digits (second t) +:+ "Z".

Record document : Type := {
  updatedAt : string;
  styles : availability
}.

(** How a run ends: an uncaught exception (non-zero exit, nothing written,
    nothing printed), or the document written to [OUT_PATH] and the line
    printed on standard output. *)
Inductive outcome : Type :=
  | Uncaught (e : exn)
  | Wrote (out : document) (stdout : string).

(** [{s: True for s in szs}] over the elements of [szs]. *)
Fixpoint all_true (acc : sizes) (szs : list json) : result sizes :=
  match szs with
  | [] => mret acc
  | s :: rest => k ← hash_key s; all_true (<[k := true]> acc) rest
  end.

(** One turn of the seeding loop. *)
Definition seed_style (avail : availability) (st : json) : result availability :=
  style_id ← getitem st "id";
  szs ← get st "sizes" (JArr []);
  elems ← iter szs;
  entry ← all_true ∅ elems;
  k ← hash_key style_id;
  mret (<[k := entry]> avail).

Fixpoint seed (avail : availability) (sts : list json) : result availability :=
  match sts with
  | [] => mret avail
  | st :: rest => avail ← seed_style avail st; seed avail rest
  end.

(** Everything up to the first override layer. *)
Definition seed_catalog (catalog_file : file) : result availability :=
  catalog ← load_json catalog_file;
  styles ← get catalog "styles" (JArr []);
  sts ← iter styles;
  seed ∅ sts.

(** The optional layer: applied inside [try ... except Exception: pass]. *)
Definition apply_file_overrides (avail : availability) (ovr_file : file)
  : availability :=
  if exists_ ovr_file then
    match load_json ovr_file with
    | inl _ => avail
    | inr file_overrides => fst (merge_overrides avail file_overrides)
    end
  else avail.

Section Main.
Variable REPO_ROOT : string.

Definition OUT_PATH : string :=
  join (join REPO_ROOT "data") "availability.json".

Definition main (catalog_file ovr_file : file) (utcnow : datetime) : outcome :=
  match seed_catalog catalog_file with
  | inl e => Uncaught e
  | inr avail =>
      match merge_overrides avail BUILTIN_OVERRIDES with
      | (_, Some e) => Uncaught e
      | (avail, None) =>
          let avail := apply_file_overrides avail ovr_file in
          Wrote {| updatedAt := strftime utcnow; styles := avail |}
                ("Wrote " +:+ OUT_PATH)
      end
  end.
End Main.

(** ** The run in its environment

    Lines 106 to 110 of [main] act on the world outside the program:
    [os.makedirs], [open(OUT_PATH, "w")] and [json.dump] write the document,
    [print] writes the line. None of them is inside a [try]. [main] above is
    the run in which they all go through; [run] is the run whatever they
    meet. *)

(** What [os.makedirs], [open(OUT_PATH, "w")] and [json.dump] meet: they go
    through, or one of them raises an [OSError] (a parent that is a file, a
    directory at [OUT_PATH], no permission, no space left). *)
Inductive target : Type :=
  | Writable
  | Unwritable.

(** What [print] meets: the line is written, or writing it raises an
    [OSError]. *)
Inductive console : Type :=
  | Printing
  | Broken.

(** How a run ends in its environment: as [main] says; or in the uncaught
    [OSError] of lines 106 to 108 (non-zero exit, no complete document at
    [OUT_PATH], nothing printed); or, with the document written, in the
    [OSError] of [print] (non-zero exit). *)
Inductive exit : Type :=
  | Ended (o : outcome)
  | WriteFailed
  | PrintFailed (out : document).

Definition run (REPO_ROOT : string) (tgt : target) (con : console)
    (catalog_file ovr_file : file) (utcnow : datetime) : exit :=
  match main REPO_ROOT catalog_file ovr_file utcnow with
  | Uncaught e => Ended (Uncaught e)
  | Wrote out stdout =>
      match tgt with
      | Unwritable => WriteFailed
      | Writable =>
          match con with
          | Broken => PrintFailed out
          | Printing => Ended (Wrote out stdout)
          end
      end
  end.

(** ** Reading the working dictionary *)

(** [m[style_id][sz]], [None] when either key is missing. *)
Definition lookup2 (m : availability) (style_id sz : pykey) : option bool :=
  m !! style_id ≫= fun inner => inner !! sz.

(** ** Overlays

    Every write of [merge_overrides] has the form "make sure the style is
    there, then put a value at a size". Such updates are the action of a
    partial table laid over the dictionary: the styles of both, and for a
    style of both the sizes of both, the overlay winning. *)

Definition overlay (o base : availability) : availability :=
  union_with (fun a b => Some (a ∪ b)) o base.

Definition overlaying (F : availability -> availability) : Prop :=
  forall base, F base = overlay (F ∅) base.

(** What [extra] lays over any dictionary. *)
Definition layer (extra : json) : availability :=
  fst (merge_overrides ∅ extra).

(** ** The vocabulary of the properties *)

(** A dict has distinct keys (its items are listed once each). *)
Definition is_dict (x : json) : bool :=
  match x with
  | JObj members => bool_decide (NoDup members.*1)
  | _ => false
  end.

(** An override table: a dict whose values are dicts. *)
Definition is_table (x : json) : bool :=
  match x with
  | JObj members =>
      bool_decide (NoDup members.*1) && forallb (fun m => is_dict m.2) members
  | _ => false
  end.

(** The value a table gives for a pair, [table[style_id][sz]] if any. The
    keys of a table are strings. *)
Definition table_value (members : list (string * json)) (style_id sz : pykey)
  : option json :=
  match style_id, sz with
  | KStr s, KStr z =>
      match assoc members s with
      | Some (JObj size_items) => assoc size_items z
      | _ => None
      end
  | _, _ => None
  end.

Definition layer_value (extra : json) (style_id sz : pykey) : option json :=
  match extra with
  | JObj members => table_value members style_id sz
  | _ => None
  end.

(** The value the optional file gives for a pair; a file that is not there
    or is rejected by [json.load] gives none. *)
Definition file_value (ovr_file : file) (style_id sz : pykey) : option json :=
  match ovr_file with
  | Holds doc => layer_value doc style_id sz
  | _ => None
  end.

(** The entry the optional file has for a style, if any. *)
Definition file_entry (ovr_file : file) (style_id : string) : option json :=
  match ovr_file with
  | Holds (JObj members) => assoc members style_id
  | _ => None
  end.

(** The optional file, when it holds a document, holds an override table. *)
Definition override_file_ok (ovr_file : file) : bool :=
  match ovr_file with
  | Holds doc => is_table doc
  | _ => true
  end.

(** The identifier and the size labels the seeding loop reads from one
    style record. *)
Definition style_record (st : json) : result (pykey * list pykey) :=
  style_id ← getitem st "id";
  szs ← get st "sizes" (JArr []);
  elems ← iter szs;
  labels ← mapM hash_key elems;
  k ← hash_key style_id;
  mret (k, labels).

(** The style records of the catalog, in catalog order. *)
Definition catalog_records (catalog_file : file)
  : result (list (pykey * list pykey)) :=
  catalog ← load_json catalog_file;
  styles ← get catalog "styles" (JArr []);
  sts ← iter styles;
  mapM style_record sts.

(** The dict with [True] at each of the labels, on top of [acc]. *)
Definition trues (acc : sizes) (labels : list pykey) : sizes :=
  foldl (fun m k => <[k := true]> m) acc labels.

Definition seed_records (avail : availability)
    (recs : list (pykey * list pykey)) : availability :=
  foldl (fun a r => <[r.1 := trues ∅ r.2]> a) avail recs.

(** The shapes of a catalog on which the seeding loop does not raise. *)
Definition hashable (x : json) : bool :=
  match x with
  | JArr _ | JObj _ => false
  | _ => true
  end.

Definition sizes_ok (szs : json) : bool :=
  match iter szs with
  | inr elems => forallb hashable elems
  | inl _ => false
  end.

Definition style_ok (st : json) : bool :=
  match st with
  | JObj members =>
      match assoc members "id" with
      | Some style_id =>
          sizes_ok (default (JArr []) (assoc members "sizes"))
          && hashable style_id
      | None => false
      end
  | _ => false
  end.

Definition catalog_ok (catalog : json) : bool :=
  match catalog with
  | JObj members =>
      match iter (default (JArr []) (assoc members "styles")) with
      | inr sts => forallb style_ok sts
      | inl _ => false
      end
  | _ => false
  end.

Definition succeeds {A} (r : result A) : bool :=
  match r with
  | inr _ => true
  | inl _ => false
  end.

(** [m'] has every style of [m], and for each of them every size of [m]. *)
Definition grows (m m' : availability) : Prop :=
  forall s inner, m !! s = Some inner ->
    exists inner', m' !! s = Some inner' /\ dom inner ⊆ dom inner'.

(** ** Sample inputs *)

Definition sample_time : datetime :=
  {| year := 2024; month := 3; day := 7; hour := 9; minute := 5; second := 0 |}.

Definition seven_sizes : list string :=
  ["I"; "T"; "S"; "M"; "L"; "XL"; "XXL"]%string.

Definition sample_catalog : file :=
  Holds (JObj [("styles", JArr [
    JObj [("id", JStr "sapphire"); ("sizes", JArr (JStr <$> seven_sizes))];
    JObj [("id", JStr "plain"); ("sizes", JArr [JStr "S"; JStr "M"])];
    JObj [("id", JStr "bare"); ("sizes", JArr [])]])])%string.

Definition sample_records : list (pykey * list pykey) :=
  [(KStr "sapphire", KStr <$> seven_sizes);
   (KStr "plain", [KStr "S"; KStr "M"]);
   (KStr "bare", [])]%string.

(** An override table with values that are not booleans. *)
Definition sample_table : json :=
  JObj [("sapphire", JObj [("T", JInt 1); ("L", JStr "")]);
        ("gift", JObj [("ONESIZE", JStr "no")])]%string.

Definition sample_overrides : file := Holds sample_table.

(** [{I: true, T: false, S: false, M: false, L: true, XL: true, XXL: true}] *)
Definition sapphire_entry : sizes :=
  list_to_map [(KStr "I", true); (KStr "T", false); (KStr "S", false);
               (KStr "M", false); (KStr "L", true); (KStr "XL", true);
               (KStr "XXL", true)]%string.

(** [{"sapphire": {"T": true}, "onyx": 5}]: the second entry is not a dict. *)
Definition broken_overrides : file :=
  Holds (JObj [("sapphire", JObj [("T", JBool true)]);
               ("onyx", JInt 5)])%string.

(** [{"styles": []}] *)
Definition empty_catalog : file :=
  Holds (JObj [("styles", JArr [])])%string.

(** [{"styles": [{"sizes": ["S"]}]}]: a style record without an id. *)
Definition headless_catalog : file :=
  Holds (JObj [("styles", JArr [JObj [("sizes", JArr [JStr "S"])]])])%string.

(** ** Shapes and samples for the further properties *)

(** A value is a dict. *)
Definition is_obj (x : json) : bool :=
  match x with
  | JObj _ => true
  | _ => false
  end.

(** A dict whose values are dicts. *)
Definition dict_of_dicts (x : json) : bool :=
  match x with
  | JObj members => forallb (fun m => is_obj m.2) members
  | _ => false
  end.

(** The keys of a dict, as keys of the working dictionary. *)
Definition style_keys (x : json) : gset pykey :=
  match x with
  | JObj members => list_to_set (KStr <$> members.*1)
  | _ => ∅
  end.

(** The values [bool] sends to [False]. *)
Definition falsy (v : json) : Prop :=
  v = JNull \/ v = JBool false \/ v = JInt 0 \/
  (exists sgn, v = JFloat (S754_zero sgn)) \/
  v = JStr "" \/ v = JArr [] \/ v = JObj [].

(** The optional file, when it holds a document, holds a dict of dicts. *)
Definition override_file_shaped (ovr_file : file) : bool :=
  match ovr_file with
  | Holds doc => dict_of_dicts doc
  | _ => true
  end.

(** The styles the optional file lists. *)
Definition file_styles (ovr_file : file) : gset pykey :=
  match ovr_file with
  | Holds doc => style_keys doc
  | _ => ∅
  end.

(** A time of the clock as [datetime] gives it. *)
Definition datetime_ok (t : datetime) : bool :=
  (1000 <=? year t)%N && (year t <? 10000)%N && (month t <? 100)%N
  && (day t <? 100)%N && (hour t <? 100)%N && (minute t <? 100)%N
  && (second t <? 100)%N.

(** [{"styles": [{"id": "a", "sizes": ["S", "M"]}, {"id": "a", "sizes": ["L"]}]}]:
    the identifier [a] is listed twice. *)
Definition twice_catalog : file :=
  Holds (JObj [("styles", JArr [
    JObj [("id", JStr "a"); ("sizes", JArr [JStr "S"; JStr "M"])];
    JObj [("id", JStr "a"); ("sizes", JArr [JStr "L"])]])])%string.

(** A dictionary with one style. *)
Definition plain_only : availability :=
  {[KStr "plain" := {[KStr "S" := true]}]}%string.

(** [{"styles": [{"id": "plain", "sizes": ["S"]}, {"sizes": ["S"]},
    {"id": "bare"}]}]: the second record has no id. *)
Definition one_bad_record_catalog : list (string * json) :=
  [("styles", JArr ([JObj [("id", JStr "plain"); ("sizes", JArr [JStr "S"])]]
                    ++ JObj [("sizes", JArr [JStr "S"])]
                    :: [JObj [("id", JStr "bare")]]))]%string.

(** * Properties *)

Section Overlay.
Implicit Types (o base : availability) (s z : pykey).

Lemma lookup_overlay o base s :
  overlay o base !! s =
    match o !! s, base !! s with
    | Some a, Some b => Some (a ∪ b)
    | Some a, None => Some a
    | None, r => r
    end.
Proof.
  unfold overlay. rewrite lookup_union_with.
  destruct (o !! s), (base !! s); reflexivity.
Qed.

Lemma lookup2_overlay o base s z :
  lookup2 (overlay o base) s z =
    match lookup2 o s z with
    | Some v => Some v
    | None => lookup2 base s z
    end.
Proof.
  unfold lookup2. rewrite lookup_overlay.
  destruct (o !! s) as [a|], (base !! s) as [b|]; simpl; try reflexivity.
  - rewrite lookup_union. destruct (a !! z), (b !! z); reflexivity.
  - destruct (a !! z); reflexivity.
Qed.

Lemma overlay_empty_l base : overlay ∅ base = base.
Proof. apply map_eq; intros s. rewrite lookup_overlay, lookup_empty. reflexivity. Qed.

Lemma overlay_empty_r o : overlay o ∅ = o.
Proof.
  apply map_eq; intros s. rewrite lookup_overlay, lookup_empty.
  destruct (o !! s); reflexivity.
Qed.

Lemma overlay_assoc o2 o1 base :
  overlay o2 (overlay o1 base) = overlay (overlay o2 o1) base.
Proof.
  apply map_eq; intros s. rewrite !lookup_overlay.
  destruct (o2 !! s), (o1 !! s), (base !! s); try reflexivity.
  f_equal. apply (assoc_L (∪)).
Qed.

Lemma overlay_idemp o base : overlay o (overlay o base) = overlay o base.
Proof.
  rewrite overlay_assoc. f_equal.
  apply map_eq; intros s. rewrite lookup_overlay.
  destruct (o !! s); [|reflexivity].
  f_equal. apply (idemp_L (∪)).
Qed.

Lemma overlaying_id : overlaying (fun base => base).
Proof. intros base. symmetry. apply overlay_empty_l. Qed.

Lemma overlaying_compose F G :
  overlaying F -> overlaying G -> overlaying (fun base => G (F base)).
Proof.
  intros HF HG base.
  rewrite (HG (F base)), (HF base), overlay_assoc.
  rewrite (HG (F ∅)). reflexivity.
Qed.

Lemma overlaying_idemp F base : overlaying F -> F (F base) = F base.
Proof. intros HF. rewrite (HF (F base)), (HF base). apply overlay_idemp. Qed.

Lemma overlaying_setitem2 s z v : overlaying (fun base => setitem2 base s z v).
Proof.
  intros base. apply map_eq; intros s'.
  unfold setitem2. rewrite lookup_overlay.
  destruct (decide (s = s')) as [<-|Hne].
  - rewrite !lookup_insert_eq, lookup_empty. simpl.
    destruct (base !! s) as [inner|]; simpl; [|reflexivity].
    f_equal. rewrite insert_empty. apply insert_union_singleton_l.
  - rewrite !lookup_insert_ne, lookup_empty by assumption. reflexivity.
Qed.
End Overlay.

(** ** merge_overrides as an overlay *)

Section MergeOverlay.
Implicit Types (base : availability) (extra : json).

Lemma overlaying_ensure_style style_id :
  overlaying (fun base => ensure_style base style_id).
Proof.
  intros base. apply map_eq; intros s.
  rewrite lookup_overlay. unfold ensure_style at 2.
  rewrite decide_False by (rewrite lookup_empty; apply is_Some_None).
  unfold ensure_style.
  destruct (decide (KStr style_id = s)) as [<-|Hne].
  - rewrite lookup_insert_eq.
    destruct (decide (is_Some (base !! KStr style_id))) as [[b Hb]|Hno].
    + rewrite Hb. f_equal. symmetry. apply (left_id_L ∅ (∪)).
    + rewrite lookup_insert_eq.
      destruct (base !! KStr style_id) eqn:Hb; [|reflexivity].
      exfalso. apply Hno. eauto.
  - rewrite lookup_insert_ne by assumption. rewrite lookup_empty.
    destruct (decide (is_Some (base !! KStr style_id))); [reflexivity|].
    rewrite lookup_insert_ne by assumption. reflexivity.
Qed.

Lemma overlaying_merge_sizes style_id size_items :
  overlaying (fun base => merge_sizes base style_id size_items).
Proof.
  induction size_items as [|[sz val] rest IH]; simpl.
  - apply overlaying_id.
  - apply (overlaying_compose
             (fun base => setitem2 base (KStr style_id) (KStr sz) (truthy val))
             (fun base => merge_sizes base style_id rest)).
    + apply overlaying_setitem2.
    + exact IH.
Qed.

Lemma overlaying_merge_style style_id size_items :
  overlaying (fun base =>
    merge_sizes (ensure_style base style_id) style_id size_items).
Proof.
  apply (overlaying_compose (fun base => ensure_style base style_id)
           (fun base => merge_sizes base style_id size_items)).
  - apply overlaying_ensure_style.
  - apply overlaying_merge_sizes.
Qed.

Lemma overlaying_merge_styles extra_items :
  overlaying (fun base => fst (merge_styles base extra_items)).
Proof.
  induction extra_items as [|[style_id size_map] rest IH]; simpl.
  - apply overlaying_id.
  - destruct (items size_map) as [e|size_items]; simpl.
    + apply overlaying_ensure_style.
    + apply (overlaying_compose
               (fun base => merge_sizes (ensure_style base style_id)
                                        style_id size_items)
               (fun base => fst (merge_styles base rest))).
      * apply overlaying_merge_style.
      * exact IH.
Qed.

(** Whether the merge raises depends on [extra] alone. *)
Lemma merge_styles_raises base base' extra_items :
  snd (merge_styles base extra_items) = snd (merge_styles base' extra_items).
Proof.
  revert base base'.
  induction extra_items as [|[style_id size_map] rest IH]; intros; simpl.
  - reflexivity.
  - destruct (items size_map); [reflexivity|]. apply IH.
Qed.

Lemma overlaying_merge_overrides extra :
  overlaying (fun base => fst (merge_overrides base extra)).
Proof.
  unfold merge_overrides. destruct (items extra); simpl.
  - apply overlaying_id.
  - apply overlaying_merge_styles.
Qed.

Lemma merge_overrides_raises base base' extra :
  snd (merge_overrides base extra) = snd (merge_overrides base' extra).
Proof.
  unfold merge_overrides. destruct (items extra); [reflexivity|].
  apply merge_styles_raises.
Qed.

Lemma merge_overrides_layer base extra :
  fst (merge_overrides base extra) = overlay (layer extra) base.
Proof. apply (overlaying_merge_overrides extra base). Qed.
End MergeOverlay.

(** ** Reading pairs after a write *)

Section Lookup2.
Implicit Types (base : availability) (s z : pykey).

Lemma lookup2_setitem2 base s z v s' z' :
  lookup2 (setitem2 base s z v) s' z' =
    if decide (s = s' /\ z = z') then Some v else lookup2 base s' z'.
Proof.
  unfold lookup2, setitem2.
  destruct (decide (s = s')) as [<-|Hs].
  - rewrite lookup_insert_eq. simpl.
    destruct (decide (z = z')) as [<-|Hz].
    + rewrite lookup_insert_eq, decide_True by auto. reflexivity.
    + rewrite lookup_insert_ne, decide_False by tauto.
      destruct (base !! s); reflexivity.
  - rewrite lookup_insert_ne, decide_False by tauto. reflexivity.
Qed.

Lemma lookup2_ensure_style base style_id s z :
  lookup2 (ensure_style base style_id) s z = lookup2 base s z.
Proof.
  unfold ensure_style, lookup2.
  destruct (decide (is_Some (base !! KStr style_id))) as [|Hno]; [reflexivity|].
  destruct (decide (KStr style_id = s)) as [<-|Hne].
  - rewrite lookup_insert_eq. simpl. rewrite lookup_empty.
    destruct (base !! KStr style_id) eqn:Hb; [|reflexivity].
    exfalso. apply Hno. eauto.
  - rewrite lookup_insert_ne by assumption. reflexivity.
Qed.

Lemma assoc_None members key :
  key ∉ members.*1 -> assoc members key = None.
Proof.
  induction members as [|[k v] rest IH]; simpl; [reflexivity|].
  intros Hnot. rewrite not_elem_of_cons in Hnot. destruct Hnot as [Hne Hrest].
  rewrite decide_False by congruence. auto.
Qed.

Lemma table_value_single style_id size_items s z :
  table_value [(style_id, JObj size_items)] s z =
    match s, z with
    | KStr s', KStr z' =>
        if decide (style_id = s') then assoc size_items z' else None
    | _, _ => None
    end.
Proof.
  destruct s, z; simpl; try reflexivity. case_decide; reflexivity.
Qed.

Lemma lookup2_merge_sizes base style_id size_items s z :
  NoDup size_items.*1 ->
  lookup2 (merge_sizes base style_id size_items) s z =
    match table_value [(style_id, JObj size_items)] s z with
    | Some v => Some (truthy v)
    | None => lookup2 base s z
    end.
Proof.
  revert base.
  induction size_items as [|[sz val] rest IH]; intros base Hnd.
  - rewrite table_value_single. simpl.
    destruct s, z; try reflexivity. case_decide; reflexivity.
  - rewrite fmap_cons in Hnd. apply NoDup_cons in Hnd as [Hfresh Hnd].
    cbn [merge_sizes]. rewrite IH by assumption.
    rewrite !table_value_single, lookup2_setitem2.
    destruct s as [s'| | |], z as [z'| | |];
      try (rewrite decide_False by (intros [? ?]; congruence); reflexivity).
    destruct (decide (style_id = s')) as [->|Hs].
    + cbn [assoc]. destruct (decide (sz = z')) as [->|Hz].
      * rewrite assoc_None by assumption.
        rewrite decide_True by auto. reflexivity.
      * rewrite (decide_False (P := _ /\ _)) by (intros [? ?]; congruence).
        reflexivity.
    + rewrite decide_False by (intros [? ?]; congruence). reflexivity.
Qed.
End Lookup2.


(** ** An override table applied to a dictionary *)

Section Tables.
Implicit Types (base : availability) (s z : pykey).

Lemma table_value_cons style_id size_map rest s z :
  table_value ((style_id, size_map) :: rest) s z =
    match s with
    | KStr s' =>
        if decide (style_id = s') then table_value [(style_id, size_map)] s z
        else table_value rest s z
    | _ => None
    end.
Proof.
  destruct s as [s'| | |]; try reflexivity.
  destruct z as [z'| | |]; simpl; case_decide; reflexivity.
Qed.

Lemma table_value_fresh rest style_id z :
  style_id ∉ rest.*1 -> table_value rest (KStr style_id) z = None.
Proof.
  intros Hfresh. destruct z; simpl; try reflexivity.
  rewrite assoc_None by assumption. reflexivity.
Qed.

Lemma merge_styles_table base members :
  NoDup members.*1 ->
  forallb (fun m => is_dict m.2) members = true ->
  snd (merge_styles base members) = None /\
  forall s z,
    lookup2 (fst (merge_styles base members)) s z =
      match table_value members s z with
      | Some v => Some (truthy v)
      | None => lookup2 base s z
      end.
Proof.
  revert base.
  induction members as [|[style_id size_map] rest IH]; intros base Hnd Hall.
  - split; [reflexivity|]. intros s z. simpl. destruct s, z; reflexivity.
  - rewrite fmap_cons in Hnd. apply NoDup_cons in Hnd as [Hfresh Hnd].
    cbn [forallb] in Hall. apply andb_true_iff in Hall as [Hdict Hall].
    destruct size_map as [| | | | | |size_items]; try discriminate Hdict.
    cbn [is_dict snd] in Hdict. apply bool_decide_eq_true in Hdict.
    cbn [merge_styles items]. unfold mret, result_ret.
    destruct (IH (merge_sizes (ensure_style base style_id) style_id size_items)
                Hnd Hall) as [Hok Hlk].
    split; [exact Hok|]. intros s z.
    rewrite Hlk, table_value_cons, lookup2_merge_sizes by assumption.
    rewrite lookup2_ensure_style.
    destruct s as [s'| | |]; try (destruct z; reflexivity).
    destruct (decide (style_id = s')) as [<-|Hne].
    + rewrite table_value_fresh by assumption. reflexivity.
    + rewrite table_value_single. destruct z; try reflexivity.
      rewrite decide_False by assumption.
      reflexivity.
Qed.

Lemma merge_overrides_table base extra :
  is_table extra = true ->
  snd (merge_overrides base extra) = None /\
  forall s z,
    lookup2 (fst (merge_overrides base extra)) s z =
      match layer_value extra s z with
      | Some v => Some (truthy v)
      | None => lookup2 base s z
      end.
Proof.
  destruct extra as [| | | | | |members]; try discriminate.
  cbn [is_table]. intros Hwf. apply andb_true_iff in Hwf as [Hnd Hall].
  apply bool_decide_eq_true in Hnd.
  apply (merge_styles_table base members Hnd Hall).
Qed.

Lemma BUILTIN_OVERRIDES_is_table : is_table BUILTIN_OVERRIDES = true.
Proof. vm_compute. reflexivity. Qed.

Lemma apply_file_overrides_lookup2 base ovr_file s z :
  override_file_ok ovr_file = true ->
  lookup2 (apply_file_overrides base ovr_file) s z =
    match file_value ovr_file s z with
    | Some v => Some (truthy v)
    | None => lookup2 base s z
    end.
Proof.
  destruct ovr_file as [| |doc]; try reflexivity.
  cbn [override_file_ok]. intros Hwf.
  apply (merge_overrides_table base doc Hwf).
Qed.
End Tables.

(** ** The seeding loop *)

Ltac unfold_result :=
  unfold mbind, mret, result_bind, result_ret, raise in *.

Section Seeding.
Implicit Types (avail : availability) (acc : sizes) (s z : pykey).

Lemma all_true_trues acc elems :
  all_true acc elems =
    (labels ← mapM hash_key elems; mret (trues acc labels)).
Proof.
  revert acc. induction elems as [|x rest IH]; intros acc; [reflexivity|].
  cbn [all_true mapM]. unfold_result.
  destruct (hash_key x) as [e|k]; [reflexivity|].
  rewrite IH. destruct (mapM hash_key rest); reflexivity.
Qed.

Lemma seed_style_record avail st :
  seed_style avail st =
    (r ← style_record st; mret (<[r.1 := trues ∅ r.2]> avail)).
Proof.
  unfold seed_style, style_record. unfold_result.
  destruct (getitem st "id") as [e|style_id]; [reflexivity|].
  destruct (get st "sizes" (JArr [])) as [e|szs]; [reflexivity|].
  destruct (iter szs) as [e|elems]; [reflexivity|].
  rewrite all_true_trues. unfold_result.
  destruct (mapM hash_key elems) as [e|labels]; [reflexivity|].
  destruct (hash_key style_id); reflexivity.
Qed.

Lemma seed_seed_records avail sts :
  seed avail sts =
    (recs ← mapM style_record sts; mret (seed_records avail recs)).
Proof.
  revert avail. induction sts as [|st rest IH]; intros avail; [reflexivity|].
  cbn [seed mapM]. rewrite seed_style_record. unfold_result.
  destruct (style_record st) as [e|r]; [reflexivity|].
  rewrite IH. destruct (mapM style_record rest); reflexivity.
Qed.

Lemma seed_catalog_records catalog_file :
  seed_catalog catalog_file =
    (recs ← catalog_records catalog_file; mret (seed_records ∅ recs)).
Proof.
  unfold seed_catalog, catalog_records. unfold_result.
  destruct (load_json catalog_file) as [e|catalog]; [reflexivity|].
  destruct (get catalog "styles" (JArr [])) as [e|styles_]; [reflexivity|].
  destruct (iter styles_) as [e|sts]; [reflexivity|].
  apply seed_seed_records.
Qed.

Lemma lookup_trues acc labels z :
  trues acc labels !! z =
    if decide (z ∈ labels) then Some true else acc !! z.
Proof.
  revert acc. unfold trues.
  induction labels as [|k rest IH]; intros acc; cbn [foldl].
  - rewrite decide_False by apply not_elem_of_nil. reflexivity.
  - rewrite IH. destruct (decide (z ∈ rest)) as [Hin|Hnin].
    + rewrite decide_True by (right; assumption). reflexivity.
    + destruct (decide (k = z)) as [->|Hne].
      * rewrite lookup_insert_eq, decide_True by left. reflexivity.
      * rewrite lookup_insert_ne by assumption.
        rewrite decide_False; [reflexivity|].
        rewrite elem_of_cons. intros [?|?]; congruence.
Qed.

Lemma seed_records_fresh avail recs s :
  s ∉ recs.*1 -> seed_records avail recs !! s = avail !! s.
Proof.
  revert avail. unfold seed_records.
  induction recs as [|[k labels] rest IH]; intros avail Hfresh; [reflexivity|].
  rewrite fmap_cons, not_elem_of_cons in Hfresh. destruct Hfresh as [Hne Hrest].
  cbn [foldl]. rewrite IH by assumption.
  apply lookup_insert_ne. intros Heq. apply Hne. symmetry. exact Heq.
Qed.

Lemma seed_records_lookup avail recs s labels :
  NoDup recs.*1 -> (s, labels) ∈ recs ->
  seed_records avail recs !! s = Some (trues ∅ labels).
Proof.
  revert avail.
  induction recs as [|[k labels'] rest IH]; intros avail Hnd Hin.
  - apply elem_of_nil in Hin. destruct Hin.
  - rewrite fmap_cons in Hnd. apply NoDup_cons in Hnd as [Hfresh Hnd].
    apply elem_of_cons in Hin as [Heq|Hin].
    + injection Heq as <- <-.
      change (seed_records (<[s := trues ∅ labels]> avail) rest !! s
              = Some (trues ∅ labels)).
      rewrite seed_records_fresh by assumption. apply lookup_insert_eq.
    + apply (IH _ Hnd Hin).
Qed.

Lemma lookup2_seed_records recs s labels z :
  NoDup recs.*1 -> (s, labels) ∈ recs ->
  lookup2 (seed_records ∅ recs) s z =
    if decide (z ∈ labels) then Some true else None.
Proof.
  intros Hnd Hin. unfold lookup2.
  rewrite (seed_records_lookup _ _ _ _ Hnd Hin). simpl.
  rewrite lookup_trues, lookup_empty. reflexivity.
Qed.
End Seeding.

(** ** When the seeding loop raises *)

Section Shapes.
Implicit Types (avail : availability) (acc : sizes).

Lemma succeeds_hash_key x : succeeds (hash_key x) = hashable x.
Proof. destruct x; reflexivity. Qed.

Lemma succeeds_all_true acc elems :
  succeeds (all_true acc elems) = forallb hashable elems.
Proof.
  revert acc. induction elems as [|x rest IH]; intros acc; [reflexivity|].
  cbn [all_true forallb]. rewrite <- succeeds_hash_key. unfold_result.
  destruct (hash_key x); [reflexivity|]. apply IH.
Qed.

Lemma succeeds_seed_style avail st : succeeds (seed_style avail st) = style_ok st.
Proof.
  unfold seed_style, style_ok. destruct st; try reflexivity.
  cbn [getitem get]. unfold_result.
  destruct (assoc members "id") as [style_id|]; [|reflexivity].
  unfold sizes_ok. destruct (iter _) as [e|elems]; [reflexivity|].
  rewrite <- (succeeds_all_true ∅ elems), <- succeeds_hash_key.
  destruct (all_true ∅ elems); [reflexivity|].
  destruct (hash_key style_id); reflexivity.
Qed.

Lemma succeeds_seed avail sts :
  succeeds (seed avail sts) = forallb style_ok sts.
Proof.
  revert avail. induction sts as [|st rest IH]; intros avail; [reflexivity|].
  cbn [seed forallb]. rewrite <- (succeeds_seed_style avail st). unfold_result.
  destruct (seed_style avail st); [reflexivity|]. apply IH.
Qed.

Lemma succeeds_seed_catalog catalog :
  succeeds (seed_catalog (Holds catalog)) = catalog_ok catalog.
Proof.
  unfold seed_catalog, catalog_ok, load_json, get. unfold_result.
  destruct catalog; try reflexivity.
  destruct (iter _) as [e|sts]; [reflexivity|]. apply succeeds_seed.
Qed.
End Shapes.

(** ** The shape of a run *)

Section Run.
Variable REPO_ROOT : string.
Implicit Types (catalog_file ovr_file : file) (utcnow : datetime).

Lemma builtin_never_raises base :
  snd (merge_overrides base BUILTIN_OVERRIDES) = None.
Proof. apply merge_overrides_table, BUILTIN_OVERRIDES_is_table. Qed.

Lemma main_uncaught catalog_file ovr_file utcnow e :
  seed_catalog catalog_file = inl e ->
  main REPO_ROOT catalog_file ovr_file utcnow = Uncaught e.
Proof. intros Hseed. unfold main. rewrite Hseed. reflexivity. Qed.

Lemma main_wrote catalog_file ovr_file utcnow seeded :
  seed_catalog catalog_file = inr seeded ->
  main REPO_ROOT catalog_file ovr_file utcnow =
    Wrote {| updatedAt := strftime utcnow;
             styles := apply_file_overrides
                         (fst (merge_overrides seeded BUILTIN_OVERRIDES))
                         ovr_file |}
          ("Wrote " +:+ OUT_PATH REPO_ROOT).
Proof.
  intros Hseed. unfold main. rewrite Hseed.
  pose proof (builtin_never_raises seeded) as Hok.
  destruct (merge_overrides seeded BUILTIN_OVERRIDES) as [avail raised].
  cbn [snd] in Hok. subst raised. reflexivity.
Qed.

(** The layered reading of the pairs of the output. *)
Lemma main_layers catalog_file ovr_file utcnow seeded :
  seed_catalog catalog_file = inr seeded ->
  override_file_ok ovr_file = true ->
  exists out,
    main REPO_ROOT catalog_file ovr_file utcnow =
      Wrote out ("Wrote " +:+ OUT_PATH REPO_ROOT) /\
    updatedAt out = strftime utcnow /\
    forall s z,
      lookup2 (styles out) s z =
        match file_value ovr_file s z with
        | Some v => Some (truthy v)
        | None =>
            match layer_value BUILTIN_OVERRIDES s z with
            | Some v => Some (truthy v)
            | None => lookup2 seeded s z
            end
        end.
Proof.
  intros Hseed Hwf. eexists. split; [apply (main_wrote _ _ _ _ Hseed)|].
  split; [reflexivity|]. intros s z. cbn [styles].
  rewrite apply_file_overrides_lookup2 by assumption.
  destruct (merge_overrides_table seeded BUILTIN_OVERRIDES
              BUILTIN_OVERRIDES_is_table) as [_ ->].
  reflexivity.
Qed.
End Run.

(** ** Entries that a merge leaves alone, entries that it keeps *)

Section Entries.
Implicit Types (base : availability) (s : pykey).

Lemma ensure_style_other base style_id s :
  s <> KStr style_id -> ensure_style base style_id !! s = base !! s.
Proof.
  intros Hne. unfold ensure_style. case_decide; [reflexivity|].
  apply lookup_insert_ne. congruence.
Qed.

Lemma merge_sizes_other base style_id size_items s :
  s <> KStr style_id -> merge_sizes base style_id size_items !! s = base !! s.
Proof.
  intros Hne. revert base.
  induction size_items as [|[sz val] rest IH]; intros base; [reflexivity|].
  cbn [merge_sizes]. rewrite IH. unfold setitem2.
  apply lookup_insert_ne. congruence.
Qed.

Lemma merge_styles_other base members style_id :
  assoc members style_id = None ->
  fst (merge_styles base members) !! KStr style_id = base !! KStr style_id.
Proof.
  revert base.
  induction members as [|[k size_map] rest IH]; intros base Hnone;
    [reflexivity|].
  cbn [assoc] in Hnone. case_decide as Hk; [discriminate|].
  assert (KStr style_id <> KStr k) as Hne by congruence.
  cbn [merge_styles]. destruct (items size_map) as [e|size_items]; cbn [fst].
  - apply ensure_style_other, Hne.
  - rewrite (IH _ Hnone), merge_sizes_other by exact Hne.
    apply ensure_style_other, Hne.
Qed.

Lemma apply_file_overrides_other base ovr_file style_id :
  file_entry ovr_file style_id = None ->
  apply_file_overrides base ovr_file !! KStr style_id = base !! KStr style_id.
Proof.
  destruct ovr_file as [| |doc]; try reflexivity.
  destruct doc; try reflexivity.
  cbn [file_entry]. apply merge_styles_other.
Qed.

Lemma grows_refl base : grows base base.
Proof. intros s inner Hs. exists inner. split; [exact Hs|reflexivity]. Qed.

Lemma grows_trans (m1 m2 m3 : availability) :
  grows m1 m2 -> grows m2 m3 -> grows m1 m3.
Proof.
  intros H12 H23 s inner Hs.
  destruct (H12 s inner Hs) as (inner2 & Hs2 & Hsub2).
  destruct (H23 s inner2 Hs2) as (inner3 & Hs3 & Hsub3).
  exists inner3. split; [exact Hs3|]. etrans; eassumption.
Qed.

Lemma grows_overlay (o : availability) base : grows base (overlay o base).
Proof.
  intros s inner Hs. rewrite lookup_overlay, Hs.
  destruct (o !! s) as [a|].
  - exists (a ∪ inner). split; [reflexivity|].
    rewrite dom_union. apply union_subseteq_r.
  - exists inner. split; reflexivity.
Qed.

Lemma grows_merge_overrides base extra :
  grows base (fst (merge_overrides base extra)).
Proof. rewrite merge_overrides_layer. apply grows_overlay. Qed.

Lemma grows_apply_file_overrides base ovr_file :
  grows base (apply_file_overrides base ovr_file).
Proof.
  destruct ovr_file as [| |doc]; try apply grows_refl.
  apply grows_merge_overrides.
Qed.
End Entries.

(** * The properties of the availability writer *)

Ltac by_decision := apply (bool_decide_unpack _); vm_compute; exact I.

Lemma seed_catalog_of_records catalog_file recs :
  catalog_records catalog_file = inr recs ->
  seed_catalog catalog_file = inr (seed_records ∅ recs).
Proof. intros Hrecs. rewrite seed_catalog_records, Hrecs. reflexivity. Qed.

(** C1. For every (style, size) pair of the catalog the styles of the output
    hold a boolean, read through the layers: the value of the override file
    if the file gives one for the pair, otherwise the value of the built-in
    table if it gives one, otherwise [true]. The catalog is the one of the
    data model (identifiers are unique) and the optional file, when it holds
    a document, holds an override table. *)
Theorem C1_layered_precedence
    (REPO_ROOT : string) (catalog_file ovr_file : file) (utcnow : datetime)
    (recs : list (pykey * list pykey)) (style_id : pykey)
    (labels : list pykey) (sz : pykey) :
  catalog_records catalog_file = inr recs ->
  NoDup recs.*1 ->
  (style_id, labels) ∈ recs ->
  sz ∈ labels ->
  override_file_ok ovr_file = true ->
  exists out stdout,
    main REPO_ROOT catalog_file ovr_file utcnow = Wrote out stdout /\
    lookup2 (styles out) style_id sz =
      Some match file_value ovr_file style_id sz with
           | Some v => truthy v
           | None =>
               match layer_value BUILTIN_OVERRIDES style_id sz with
               | Some v => truthy v
               | None => true
               end
           end.
Proof.
  intros Hrecs Hnd Hin Hsz Hwf.
  apply seed_catalog_of_records in Hrecs.
  destruct (main_layers REPO_ROOT _ _ utcnow _ Hrecs Hwf)
    as (out & Hrun & _ & Hlayers).
  exists out, ("Wrote " +:+ OUT_PATH REPO_ROOT). split; [exact Hrun|].
  rewrite Hlayers, (lookup2_seed_records _ _ _ _ Hnd Hin).
  rewrite decide_True by assumption.
  destruct (file_value ovr_file style_id sz); [reflexivity|].
  destruct (layer_value BUILTIN_OVERRIDES style_id sz); reflexivity.
Qed.

(** The file says [1] for (sapphire, T), the built-in table says [False]:
    the output holds [true]. *)
Lemma C1_layered_precedence_witness :
  exists out stdout,
    main "/repo" sample_catalog sample_overrides sample_time
      = Wrote out stdout /\
    lookup2 (styles out) (KStr "sapphire") (KStr "T") = Some true.
Proof.
  exact (C1_layered_precedence "/repo" sample_catalog sample_overrides
           sample_time sample_records (KStr "sapphire")
           (KStr <$> seven_sizes) (KStr "T")
           eq_refl
           ltac:(by_decision) ltac:(by_decision) ltac:(by_decision)
           eq_refl).
Defined.

(** An override file that cannot be read or parsed changes nothing. *)
Lemma unparseable_overrides_ignored
    (REPO_ROOT : string) (catalog_file : file) (utcnow : datetime) :
  main REPO_ROOT catalog_file Unparseable utcnow =
    main REPO_ROOT catalog_file Missing utcnow.
Proof. reflexivity. Qed.

(** Once the catalog is seeded the run writes its output, whatever the
    override file holds. *)
Lemma overrides_never_fatal
    (REPO_ROOT : string) (catalog_file ovr_file : file) (utcnow : datetime)
    (seeded : availability) :
  seed_catalog catalog_file = inr seeded ->
  exists out,
    main REPO_ROOT catalog_file ovr_file utcnow =
      Wrote out ("Wrote " +:+ OUT_PATH REPO_ROOT).
Proof. intros Hseed. eexists. apply (main_wrote _ _ _ _ _ Hseed). Qed.

(** C2. The override file [{"sapphire": {"T": true}, "onyx": 5}] makes
    [merge_overrides] raise at its second entry; the exception is swallowed
    and the run writes its output, but the first entry has already been
    written in place: (sapphire, T) is [true] in the output, and [false]
    when the file is absent. *)
Theorem C2_broken_overrides_leak :
  merge_overrides ∅ (JObj [("sapphire", JObj [("T", JBool true)]);
                           ("onyx", JInt 5)])
    = (<[KStr "onyx" := ∅]> {[KStr "sapphire" := {[KStr "T" := true]}]},
       Some AttributeError) /\
  (exists out stdout,
      main "/repo" empty_catalog broken_overrides sample_time
        = Wrote out stdout /\
      lookup2 (styles out) (KStr "sapphire") (KStr "T") = Some true) /\
  (exists out stdout,
      main "/repo" empty_catalog Missing sample_time = Wrote out stdout /\
      lookup2 (styles out) (KStr "sapphire") (KStr "T") = Some false).
Proof.
  split; [|split].
  - vm_compute. reflexivity.
  - eexists _, _. split; [reflexivity|]. vm_compute. reflexivity.
  - eexists _, _. split; [reflexivity|]. vm_compute. reflexivity.
Qed.

(** C3, counterexample. A catalog that [json.load] accepts and on which
    the run still ends in an uncaught exception: a style record without
    ["id"]. And a catalog of the expected shape on which the run still
    fails: the output location cannot be written. *)
Lemma C3_loaded_catalog_still_fatal :
  load_json headless_catalog
    = inr (JObj [("styles", JArr [JObj [("sizes", JArr [JStr "S"])]])]) /\
  main "/repo" headless_catalog Missing sample_time = Uncaught KeyError /\
  run "/repo" Writable Printing headless_catalog Missing sample_time
    = Ended (Uncaught KeyError) /\
  run "/repo" Unwritable Printing sample_catalog Missing sample_time
    = WriteFailed.
Proof. repeat split; reflexivity. Qed.

(** With an output location that takes the document and a standard output
    that takes the line, the run ends as [main] says. *)
Lemma run_writable_printing
    (REPO_ROOT : string) (catalog_file ovr_file : file) (utcnow : datetime) :
  run REPO_ROOT Writable Printing catalog_file ovr_file utcnow =
    Ended (main REPO_ROOT catalog_file ovr_file utcnow).
Proof.
  unfold run. destruct (main REPO_ROOT catalog_file ovr_file utcnow);
    reflexivity.
Qed.

(** C3, amended. A catalog file that is missing or that [json.load] rejects
    ends the run in an uncaught exception with nothing written, whatever the
    environment. A catalog that loads ends the run the same way exactly when
    its shape is not the one the seeding loop reads ([catalog_ok]). For a
    catalog of that shape the run ends by what lines 106 to 110 meet,
    whatever the override file holds: it writes its output and prints its
    message when the output location can be written and the line printed;
    it ends in the uncaught [OSError] of the write when the location cannot
    be written; it ends in the [OSError] of [print], the document written,
    when the line cannot be printed. *)
Theorem C3_fatal_conditions
    (REPO_ROOT : string) (tgt : target) (con : console)
    (catalog_file ovr_file : file) (utcnow : datetime) :
  match catalog_file with
  | Missing =>
      run REPO_ROOT tgt con catalog_file ovr_file utcnow
        = Ended (Uncaught FileNotFoundError)
  | Unparseable =>
      run REPO_ROOT tgt con catalog_file ovr_file utcnow
        = Ended (Uncaught JSONDecodeError)
  | Holds catalog =>
      if catalog_ok catalog then
        match tgt, con with
        | Writable, Printing =>
            exists out,
              run REPO_ROOT tgt con catalog_file ovr_file utcnow
                = Ended (Wrote out ("Wrote " +:+ OUT_PATH REPO_ROOT))
        | Writable, Broken =>
            exists out,
              run REPO_ROOT tgt con catalog_file ovr_file utcnow
                = PrintFailed out
        | Unwritable, _ =>
            run REPO_ROOT tgt con catalog_file ovr_file utcnow = WriteFailed
        end
      else
        exists e,
          run REPO_ROOT tgt con catalog_file ovr_file utcnow
            = Ended (Uncaught e)
  end.
Proof.
  destruct catalog_file as [| |catalog]; try reflexivity.
  pose proof (succeeds_seed_catalog catalog) as Hshape.
  destruct (seed_catalog (Holds catalog)) as [e|seeded] eqn:Hseed;
    cbn [succeeds] in Hshape; rewrite <- Hshape.
  - exists e. unfold run. rewrite (main_uncaught _ _ _ _ _ Hseed).
    reflexivity.
  - destruct (overrides_never_fatal REPO_ROOT _ ovr_file utcnow _ Hseed)
      as [out Hrun].
    unfold run. rewrite Hrun. destruct tgt, con; eauto.
Qed.

(** C4. The merge is additive: a pair that an override layer gives is in
    the output with the value of the layer (the file first, the built-in
    table otherwise), whether or not the catalog has the pair. The style
    [partybag] of the built-in table, absent from the catalog and from the
    override file, is in the output as [{ONESIZE: true}]. *)
Theorem C4_overrides_are_additive
    (REPO_ROOT : string) (catalog_file ovr_file : file) (utcnow : datetime)
    (recs : list (pykey * list pykey)) :
  catalog_records catalog_file = inr recs ->
  override_file_ok ovr_file = true ->
  exists out stdout,
    main REPO_ROOT catalog_file ovr_file utcnow = Wrote out stdout /\
    (forall style_id sz v,
        file_value ovr_file style_id sz = Some v ->
        lookup2 (styles out) style_id sz = Some (truthy v)) /\
    (forall style_id sz v,
        file_value ovr_file style_id sz = None ->
        layer_value BUILTIN_OVERRIDES style_id sz = Some v ->
        lookup2 (styles out) style_id sz = Some (truthy v)) /\
    (KStr "partybag" ∉ recs.*1 ->
     file_entry ovr_file "partybag" = None ->
     styles out !! KStr "partybag" = Some {[KStr "ONESIZE" := true]}).
Proof.
  intros Hrecs Hwf. apply seed_catalog_of_records in Hrecs.
  pose proof (main_wrote REPO_ROOT _ ovr_file utcnow _ Hrecs) as Hrun.
  eexists _, _. split; [exact Hrun|]. cbn [styles].
  destruct (merge_overrides_table (seed_records ∅ recs) BUILTIN_OVERRIDES
              BUILTIN_OVERRIDES_is_table) as [_ Hbuiltin].
  split; [|split].
  - intros style_id sz v Hfile.
    rewrite apply_file_overrides_lookup2, Hfile by assumption. reflexivity.
  - intros style_id sz v Hfile Hbuilt.
    rewrite apply_file_overrides_lookup2, Hfile, Hbuiltin, Hbuilt
      by assumption.
    reflexivity.
  - intros Habsent Hentry.
    rewrite apply_file_overrides_other by assumption.
    rewrite merge_overrides_layer, lookup_overlay.
    rewrite seed_records_fresh, lookup_empty by assumption.
    vm_compute. reflexivity.
Qed.

(** The override file gives ["no"] for (gift, ONESIZE), a style that is
    neither in the catalog nor in the built-in table. *)
Lemma C4_overrides_are_additive_witness :
  exists out stdout,
    main "/repo" sample_catalog sample_overrides sample_time
      = Wrote out stdout /\
    (forall style_id sz v,
        file_value sample_overrides style_id sz = Some v ->
        lookup2 (styles out) style_id sz = Some (truthy v)) /\
    (forall style_id sz v,
        file_value sample_overrides style_id sz = None ->
        layer_value BUILTIN_OVERRIDES style_id sz = Some v ->
        lookup2 (styles out) style_id sz = Some (truthy v)) /\
    (KStr "partybag" ∉ sample_records.*1 ->
     file_entry sample_overrides "partybag" = None ->
     styles out !! KStr "partybag" = Some {[KStr "ONESIZE" := true]}).
Proof.
  exact (C4_overrides_are_additive "/repo" sample_catalog sample_overrides
           sample_time sample_records eq_refl eq_refl).
Defined.

(** C5. Seeding gives every size listed for a style record the value
    [true] and nothing else: the entry of the style is exactly its listed
    sizes, an empty list giving an empty entry that is there. A pair of the
    catalog that no override layer gives is [true] in the output. *)
Theorem C5_seeding_defaults
    (REPO_ROOT : string) (catalog_file : file)
    (recs : list (pykey * list pykey)) (style_id : pykey)
    (labels : list pykey) :
  catalog_records catalog_file = inr recs ->
  NoDup recs.*1 ->
  (style_id, labels) ∈ recs ->
  exists seeded,
    seed_catalog catalog_file = inr seeded /\
    (exists entry,
        seeded !! style_id = Some entry /\
        (forall sz, sz ∈ labels -> entry !! sz = Some true) /\
        (forall sz, sz ∉ labels -> entry !! sz = None) /\
        (labels = [] -> entry = ∅)) /\
    (forall ovr_file utcnow sz,
        sz ∈ labels ->
        override_file_ok ovr_file = true ->
        file_value ovr_file style_id sz = None ->
        layer_value BUILTIN_OVERRIDES style_id sz = None ->
        exists out stdout,
          main REPO_ROOT catalog_file ovr_file utcnow = Wrote out stdout /\
          lookup2 (styles out) style_id sz = Some true).
Proof.
  intros Hrecs Hnd Hin. apply seed_catalog_of_records in Hrecs.
  exists (seed_records ∅ recs). split; [exact Hrecs|]. split.
  - exists (trues ∅ labels).
    split; [apply (seed_records_lookup _ _ _ _ Hnd Hin)|].
    split; [|split].
    + intros sz Hsz. rewrite lookup_trues, decide_True by assumption.
      reflexivity.
    + intros sz Hsz. rewrite lookup_trues, decide_False by assumption.
      apply lookup_empty.
    + intros ->. reflexivity.
  - intros ovr_file utcnow sz Hsz Hwf Hfile Hbuilt.
    destruct (main_layers REPO_ROOT _ _ utcnow _ Hrecs Hwf)
      as (out & Hrun & _ & Hlayers).
    exists out, ("Wrote " +:+ OUT_PATH REPO_ROOT). split; [exact Hrun|].
    rewrite Hlayers, Hfile, Hbuilt, (lookup2_seed_records _ _ _ _ Hnd Hin).
    apply decide_True, Hsz.
Qed.

(** The style [plain] of the sample catalog has sizes S and M and no
    override; the style [bare] has no size. *)
Lemma C5_seeding_defaults_witness :
  exists seeded,
    seed_catalog sample_catalog = inr seeded /\
    (exists entry,
        seeded !! KStr "plain" = Some entry /\
        (forall sz, sz ∈ [KStr "S"; KStr "M"] -> entry !! sz = Some true) /\
        (forall sz, sz ∉ [KStr "S"; KStr "M"] -> entry !! sz = None) /\
        ([KStr "S"; KStr "M"] = [] -> entry = ∅)) /\
    (forall ovr_file utcnow sz,
        sz ∈ [KStr "S"; KStr "M"] ->
        override_file_ok ovr_file = true ->
        file_value ovr_file (KStr "plain") sz = None ->
        layer_value BUILTIN_OVERRIDES (KStr "plain") sz = None ->
        exists out stdout,
          main "/repo" sample_catalog ovr_file utcnow = Wrote out stdout /\
          lookup2 (styles out) (KStr "plain") sz = Some true).
Proof.
  exact (C5_seeding_defaults "/repo" sample_catalog sample_records
           (KStr "plain") [KStr "S"; KStr "M"]
           eq_refl ltac:(by_decision) ltac:(by_decision)).
Defined.

(** C6. Two runs on the same catalog and override file at two times of the
    clock end the same way; when they write, the styles and the printed line
    are the same and each [updatedAt] is the formatted time of its run. *)
Theorem C6_styles_independent_of_clock
    (REPO_ROOT : string) (catalog_file ovr_file : file) (t1 t2 : datetime) :
  match main REPO_ROOT catalog_file ovr_file t1,
        main REPO_ROOT catalog_file ovr_file t2 with
  | Wrote out1 stdout1, Wrote out2 stdout2 =>
      styles out1 = styles out2 /\
      stdout1 = stdout2 /\
      updatedAt out1 = strftime t1 /\
      updatedAt out2 = strftime t2
  | Uncaught e1, Uncaught e2 => e1 = e2
  | _, _ => False
  end.
Proof.
  destruct (seed_catalog catalog_file) as [e|seeded] eqn:Hseed.
  - rewrite !(main_uncaught _ _ _ _ _ Hseed). reflexivity.
  - rewrite !(main_wrote _ _ _ _ _ Hseed). cbn [styles updatedAt].
    repeat split; reflexivity.
Qed.

(** C7. A catalog (of unique identifiers) that lists [sapphire] with sizes
    I, T, S, M, L, XL, XXL and no override file: the entry of [sapphire] in
    the output is I, L, XL, XXL [true] and T, S, M [false]. *)
Theorem C7_sapphire_example
    (REPO_ROOT : string) (catalog_file : file) (utcnow : datetime)
    (recs : list (pykey * list pykey)) :
  catalog_records catalog_file = inr recs ->
  NoDup recs.*1 ->
  (KStr "sapphire", KStr <$> seven_sizes) ∈ recs ->
  exists out stdout,
    main REPO_ROOT catalog_file Missing utcnow = Wrote out stdout /\
    styles out !! KStr "sapphire" = Some sapphire_entry.
Proof.
  intros Hrecs Hnd Hin. apply seed_catalog_of_records in Hrecs.
  eexists _, _. split; [apply (main_wrote _ _ _ _ _ Hrecs)|].
  cbn [styles apply_file_overrides exists_].
  rewrite merge_overrides_layer, lookup_overlay.
  rewrite (seed_records_lookup _ _ _ _ Hnd Hin).
  vm_compute. reflexivity.
Qed.

Lemma C7_sapphire_example_witness :
  exists out stdout,
    main "/repo" sample_catalog Missing sample_time = Wrote out stdout /\
    styles out !! KStr "sapphire" = Some sapphire_entry.
Proof.
  exact (C7_sapphire_example "/repo" sample_catalog sample_time
           sample_records eq_refl ltac:(by_decision) ltac:(by_decision)).
Defined.

(** C8. Applying an override table stores [bool(v)] for every value [v] it
    gives: after the merge, which does not raise, the pair reads as the
    truth value of [v], whatever kind of value [v] is. *)
Theorem C8_values_coerced
    (base : availability) (extra : json) (style_id sz : pykey) (v : json) :
  is_table extra = true ->
  layer_value extra style_id sz = Some v ->
  exists merged,
    merge_overrides base extra = (merged, None) /\
    lookup2 merged style_id sz = Some (truthy v).
Proof.
  intros Hwf Hv.
  destruct (merge_overrides_table base extra Hwf) as [Hok Hlk].
  destruct (merge_overrides base extra) as [merged raised].
  cbn [fst snd] in Hok, Hlk. subst raised.
  exists merged. split; [reflexivity|].
  rewrite Hlk, Hv. reflexivity.
Qed.

(** The empty string given for (sapphire, L) is stored as [false]. *)
Lemma C8_values_coerced_witness :
  exists merged,
    merge_overrides ∅ sample_table = (merged, None) /\
    lookup2 merged (KStr "sapphire") (KStr "L") = Some false.
Proof.
  exact (C8_values_coerced ∅ sample_table (KStr "sapphire") (KStr "L")
           (JStr "") eq_refl eq_refl).
Defined.

(** C9. [merge_overrides] removes nothing, whether or not it raises: every
    style of [base] is still there afterwards with at least the sizes it
    had. A turn of the seeding loop keeps every style, and from the seeded
    dictionary to the styles of the output nothing is lost. *)
Theorem C9_merge_never_removes (base : availability) (extra : json) :
  grows base (fst (merge_overrides base extra)) /\
  (forall (avail avail' : availability) (st : json),
      seed_style avail st = inr avail' -> dom avail ⊆ dom avail') /\
  (forall (REPO_ROOT : string) (catalog_file ovr_file : file)
          (utcnow : datetime) (seeded : availability),
      seed_catalog catalog_file = inr seeded ->
      exists out stdout,
        main REPO_ROOT catalog_file ovr_file utcnow = Wrote out stdout /\
        grows seeded (styles out)).
Proof.
  split; [apply grows_merge_overrides|]. split.
  - intros avail avail' st Hstep. rewrite seed_style_record in Hstep.
    unfold_result. destruct (style_record st) as [e|r]; [discriminate|].
    injection Hstep as <-. rewrite dom_insert. apply union_subseteq_r.
  - intros REPO_ROOT catalog_file ovr_file utcnow seeded Hseed.
    eexists _, _. split; [apply (main_wrote _ _ _ _ _ Hseed)|].
    cbn [styles].
    apply (grows_trans _ (fst (merge_overrides seeded BUILTIN_OVERRIDES))).
    + apply grows_merge_overrides.
    + apply grows_apply_file_overrides.
Qed.

(** C10. Applying [merge_overrides] with the same [extra] a second time
    changes nothing: the dictionary is the one reached after the first
    application, and the second application raises exactly when the first
    did. *)
Theorem C10_merge_idempotent (base : availability) (extra : json) :
  merge_overrides (fst (merge_overrides base extra)) extra =
    merge_overrides base extra.
Proof.
  apply injective_projections.
  - apply (overlaying_idemp (fun b => fst (merge_overrides b extra))).
    apply overlaying_merge_overrides.
  - apply merge_overrides_raises.
Qed.

(** * Further properties of [merge_overrides] and of the seeding loop *)

Section Raising.
Implicit Types (base : availability) (s : pykey).

Lemma merge_styles_raises_iff base members :
  snd (merge_styles base members) =
    if forallb (fun m => is_obj m.2) members then None
    else Some AttributeError.
Proof.
  revert base.
  induction members as [|[k size_map] rest IH]; intros base; [reflexivity|].
  cbn [merge_styles forallb snd].
  destruct size_map; try reflexivity. cbn [items is_obj andb].
  unfold_result. apply IH.
Qed.

Lemma merge_styles_app base pre rest :
  forallb (fun m => is_obj m.2) pre = true ->
  merge_styles base (pre ++ rest) =
    merge_styles (fst (merge_styles base pre)) rest.
Proof.
  revert base.
  induction pre as [|[k size_map] pre IH]; intros base Hpre; [reflexivity|].
  cbn [forallb] in Hpre. apply andb_true_iff in Hpre as [Hk Hpre].
  destruct size_map; try discriminate Hk.
  cbn [app merge_styles items]. unfold_result. apply IH, Hpre.
Qed.

Lemma merge_styles_unlisted base members s :
  (forall k, s = KStr k -> assoc members k = None) ->
  fst (merge_styles base members) !! s = base !! s.
Proof.
  revert base.
  induction members as [|[k size_map] rest IH]; intros base Hnone;
    [reflexivity|].
  assert (s <> KStr k) as Hne.
  { intros ->. specialize (Hnone k eq_refl). cbn [assoc] in Hnone.
    rewrite decide_True in Hnone by reflexivity. discriminate. }
  assert (forall k', s = KStr k' -> assoc rest k' = None) as Hrest.
  { intros k' ->. specialize (Hnone k' eq_refl). cbn [assoc] in Hnone.
    rewrite decide_False in Hnone by congruence. exact Hnone. }
  cbn [merge_styles]. destruct (items size_map) as [e|size_items]; cbn [fst].
  - apply ensure_style_other, Hne.
  - rewrite (IH _ Hrest), merge_sizes_other by exact Hne.
    apply ensure_style_other, Hne.
Qed.
End Raising.

(** X1. Whether [merge_overrides] raises depends on the shape of [extra]
    alone: it returns normally exactly when [extra] is a dict whose values
    are all dicts, and otherwise raises [AttributeError] (from [.items()]),
    whatever [base] holds. *)
Theorem X1_merge_raises_iff (base : availability) (extra : json) :
  snd (merge_overrides base extra) =
    if dict_of_dicts extra then None else Some AttributeError.
Proof.
  unfold merge_overrides.
  destruct extra; try reflexivity.
  cbn [items dict_of_dicts]. unfold_result. apply merge_styles_raises_iff.
Qed.

(** X2. When the first value of [extra] that is not a dict sits at the style
    [style_id], the merge stops there: the entries before it are applied in
    full, the style [style_id] is created if it was missing, and none of the
    entries after it is applied. *)
Theorem X2_merge_stops_at_first_bad_entry
    (base : availability) (pre post : list (string * json))
    (style_id : string) (bad : json) :
  forallb (fun m => is_obj m.2) pre = true ->
  is_obj bad = false ->
  merge_overrides base (JObj (pre ++ (style_id, bad) :: post)) =
    (ensure_style (fst (merge_overrides base (JObj pre))) style_id,
     Some AttributeError).
Proof.
  intros Hpre Hbad. unfold merge_overrides. cbn [items]. unfold_result.
  rewrite (merge_styles_app _ _ _ Hpre). cbn [merge_styles].
  destruct bad; try reflexivity. discriminate Hbad.
Qed.

(** [{"sapphire": {"T": true}, "onyx": 5, "tiger": {"S": false}}]: the
    entry of [tiger] is never applied. *)
Lemma X2_merge_stops_at_first_bad_entry_witness :
  merge_overrides ∅
    (JObj ([("sapphire", JObj [("T", JBool true)])]
           ++ ("onyx", JInt 5) :: [("tiger", JObj [("S", JBool false)])]))
  = (ensure_style
       (fst (merge_overrides ∅ (JObj [("sapphire", JObj [("T", JBool true)])])))
       "onyx",
     Some AttributeError).
Proof.
  exact (X2_merge_stops_at_first_bad_entry ∅
           [("sapphire", JObj [("T", JBool true)])]
           [("tiger", JObj [("S", JBool false)])]
           "onyx" (JInt 5) eq_refl eq_refl).
Defined.

(** X3. A style that [extra] does not list keeps its entry (or stays
    absent) through [merge_overrides], also when the merge raises. *)
Theorem X3_unlisted_styles_untouched
    (base : availability) (extra : json) (s : pykey) :
  (forall k, s = KStr k -> file_entry (Holds extra) k = None) ->
  fst (merge_overrides base extra) !! s = base !! s.
Proof.
  intros Hnone. unfold merge_overrides.
  destruct extra; try reflexivity.
  cbn [items]. unfold_result. apply merge_styles_unlisted.
  intros k Hk. apply (Hnone k Hk).
Qed.

Lemma X3_unlisted_styles_untouched_witness :
  fst (merge_overrides plain_only sample_table) !! KStr "plain"
    = plain_only !! KStr "plain".
Proof.
  apply (X3_unlisted_styles_untouched plain_only sample_table (KStr "plain")).
  intros k Hk. injection Hk as <-. reflexivity.
Defined.

(** X4. Two override tables applied one after the other: a pair reads as
    [bool] of the value of the second table if it gives one, otherwise as
    [bool] of the value of the first, otherwise as it read in [base]. *)
Theorem X4_later_table_wins
    (base : availability) (first second : json) (style_id sz : pykey) :
  is_table first = true ->
  is_table second = true ->
  lookup2 (fst (merge_overrides (fst (merge_overrides base first)) second))
          style_id sz =
    match layer_value second style_id sz with
    | Some v => Some (truthy v)
    | None =>
        match layer_value first style_id sz with
        | Some v => Some (truthy v)
        | None => lookup2 base style_id sz
        end
    end.
Proof.
  intros Hfirst Hsecond.
  destruct (merge_overrides_table (fst (merge_overrides base first)) second
              Hsecond) as [_ ->].
  destruct (merge_overrides_table base first Hfirst) as [_ ->].
  reflexivity.
Qed.

(** The built-in table says [False] for (sapphire, T), the sample table
    says [1]: applied in that order the pair is [true]. *)
Lemma X4_later_table_wins_witness :
  lookup2 (fst (merge_overrides
                  (fst (merge_overrides ∅ BUILTIN_OVERRIDES)) sample_table))
          (KStr "sapphire") (KStr "T") = Some true.
Proof.
  exact (X4_later_table_wins ∅ BUILTIN_OVERRIDES sample_table
           (KStr "sapphire") (KStr "T") eq_refl eq_refl).
Defined.

Section SeededStyles.
Implicit Types (avail : availability) (recs : list (pykey * list pykey)).

Lemma seed_records_app avail recs1 recs2 :
  seed_records avail (recs1 ++ recs2) =
    seed_records (seed_records avail recs1) recs2.
Proof. unfold seed_records. apply foldl_app. Qed.

Lemma dom_seed_records avail recs :
  dom (seed_records avail recs) = dom avail ∪ list_to_set recs.*1.
Proof.
  revert avail.
  induction recs as [|[k labels] rest IH]; intros avail.
  - cbn. symmetry. apply (right_id_L ∅ (∪)).
  - change (seed_records avail ((k, labels) :: rest))
      with (seed_records (<[k := trues ∅ labels]> avail) rest).
    rewrite IH, dom_insert_L, fmap_cons, list_to_set_cons. cbn [fst].
    rewrite (comm_L (∪) {[k]} (dom avail)). symmetry. apply (assoc_L (∪)).
Qed.
End SeededStyles.

(** X5. When the catalog lists an identifier more than once, the last
    record with that identifier decides the seeded entry: it holds [true]
    at the sizes of that record and nothing of the earlier records. *)
Theorem X5_last_record_of_an_id_wins
    (catalog_file : file) (pre post : list (pykey * list pykey))
    (style_id : pykey) (labels : list pykey) :
  catalog_records catalog_file = inr (pre ++ (style_id, labels) :: post) ->
  style_id ∉ post.*1 ->
  exists seeded entry,
    seed_catalog catalog_file = inr seeded /\
    seeded !! style_id = Some entry /\
    forall sz, entry !! sz = if decide (sz ∈ labels) then Some true else None.
Proof.
  intros Hrecs Hlast. apply seed_catalog_of_records in Hrecs.
  eexists _, (trues ∅ labels). split; [exact Hrecs|]. split.
  - rewrite seed_records_app.
    change (seed_records (seed_records ∅ pre) ((style_id, labels) :: post))
      with (seed_records
              (<[style_id := trues ∅ labels]> (seed_records ∅ pre)) post).
    rewrite seed_records_fresh by assumption. apply lookup_insert_eq.
  - intros sz. rewrite lookup_trues, lookup_empty. reflexivity.
Qed.

(** The identifier [a] is listed with sizes S, M and then with size L:
    the seeded entry holds L alone. *)
Lemma X5_last_record_of_an_id_wins_witness :
  exists seeded entry,
    seed_catalog twice_catalog = inr seeded /\
    seeded !! KStr "a" = Some entry /\
    forall sz, entry !! sz = if decide (sz ∈ [KStr "L"]) then Some true
                             else None.
Proof.
  exact (X5_last_record_of_an_id_wins twice_catalog
           [(KStr "a", [KStr "S"; KStr "M"])] [] (KStr "a") [KStr "L"]
           eq_refl ltac:(by_decision)).
Defined.

(** X6. Seeding makes an entry for exactly the identifiers of the style
    records of the catalog. *)
Theorem X6_seeded_styles_are_catalog_ids
    (catalog_file : file) (recs : list (pykey * list pykey)) :
  catalog_records catalog_file = inr recs ->
  exists seeded,
    seed_catalog catalog_file = inr seeded /\
    dom seeded = list_to_set recs.*1.
Proof.
  intros Hrecs. apply seed_catalog_of_records in Hrecs.
  eexists. split; [exact Hrecs|].
  rewrite dom_seed_records, dom_empty_L. apply (left_id_L ∅ (∪)).
Qed.

Lemma X6_seeded_styles_are_catalog_ids_witness :
  exists seeded,
    seed_catalog sample_catalog = inr seeded /\
    dom seeded = list_to_set sample_records.*1.
Proof.
  exact (X6_seeded_styles_are_catalog_ids sample_catalog sample_records
           eq_refl).
Defined.

Section MergedStyles.
Implicit Types (base : availability) (s : pykey).

Lemma dom_ensure_style base style_id :
  dom (ensure_style base style_id) = {[KStr style_id]} ∪ dom base.
Proof.
  unfold ensure_style. case_decide as Hin; [|apply dom_insert_L].
  symmetry. apply subseteq_union_1_L, singleton_subseteq_l.
  apply elem_of_dom, Hin.
Qed.

Lemma dom_setitem2 base s z v :
  dom (setitem2 base s z v) = {[s]} ∪ dom base.
Proof. unfold setitem2. apply dom_insert_L. Qed.

Lemma dom_merge_sizes base style_id size_items :
  KStr style_id ∈ dom base ->
  dom (merge_sizes base style_id size_items) = dom base.
Proof.
  revert base.
  induction size_items as [|[sz val] rest IH]; intros base Hin; [reflexivity|].
  cbn [merge_sizes].
  assert (dom (setitem2 base (KStr style_id) (KStr sz) (truthy val))
          = dom base) as Hstep.
  { rewrite dom_setitem2. apply subseteq_union_1_L, singleton_subseteq_l, Hin. }
  rewrite IH; [exact Hstep|]. rewrite Hstep. exact Hin.
Qed.

Lemma dom_merge_styles base members :
  forallb (fun m => is_obj m.2) members = true ->
  dom (fst (merge_styles base members)) =
    dom base ∪ list_to_set (KStr <$> members.*1).
Proof.
  revert base.
  induction members as [|[k size_map] rest IH]; intros base Hall.
  - cbn. symmetry. apply (right_id_L ∅ (∪)).
  - cbn [forallb] in Hall. apply andb_true_iff in Hall as [Hk Hall].
    destruct size_map; try discriminate Hk.
    cbn [merge_styles items]. unfold_result. rewrite (IH _ Hall).
    rewrite dom_merge_sizes, dom_ensure_style.
    + rewrite !fmap_cons, list_to_set_cons. cbn [fst].
      rewrite (comm_L (∪) {[KStr k]} (dom base)). symmetry.
      apply (assoc_L (∪)).
    + rewrite dom_ensure_style. apply elem_of_union_l, elem_of_singleton.
      reflexivity.
Qed.

Lemma dom_merge_overrides base extra :
  dict_of_dicts extra = true ->
  dom (fst (merge_overrides base extra)) = dom base ∪ style_keys extra.
Proof.
  destruct extra; try discriminate. cbn [dict_of_dicts style_keys].
  apply dom_merge_styles.
Qed.

Lemma is_table_dict_of_dicts extra :
  is_table extra = true -> dict_of_dicts extra = true.
Proof.
  destruct extra as [| | | | | |members]; try discriminate.
  cbn [is_table dict_of_dicts]. intros Hwf.
  apply andb_true_iff in Hwf as [_ Hall].
  apply forallb_forall. intros m Hm.
  pose proof (proj1 (forallb_forall _ _) Hall m Hm) as Hdict.
  cbv beta in Hdict. destruct (m.2); try discriminate Hdict. reflexivity.
Qed.

Lemma availability_eq (m1 m2 : availability) :
  dom m1 = dom m2 ->
  (forall s z, lookup2 m1 s z = lookup2 m2 s z) ->
  m1 = m2.
Proof.
  intros Hdom Hlk. apply map_eq. intros s.
  destruct (m1 !! s) as [inner1|] eqn:H1, (m2 !! s) as [inner2|] eqn:H2.
  - f_equal. apply map_eq. intros z. specialize (Hlk s z).
    unfold lookup2 in Hlk. rewrite H1, H2 in Hlk. exact Hlk.
  - apply elem_of_dom_2 in H1. rewrite Hdom in H1.
    apply not_elem_of_dom in H2. contradiction.
  - apply elem_of_dom_2 in H2. rewrite <- Hdom in H2.
    apply not_elem_of_dom in H1. contradiction.
  - reflexivity.
Qed.

Lemma grows_lookup2 (m m' : availability) s z :
  grows m m' -> is_Some (lookup2 m s z) -> is_Some (lookup2 m' s z).
Proof.
  intros Hgrows [b Hb]. unfold lookup2 in *.
  destruct (m !! s) as [inner|] eqn:Hs; [|discriminate].
  destruct (Hgrows s inner Hs) as (inner' & -> & Hsub). cbn in *.
  apply elem_of_dom, Hsub, elem_of_dom. eauto.
Qed.
End MergedStyles.

(** X7. After a merge with a dict of dicts the styles of the dictionary
    are those it had and those [extra] lists, also the ones listed with an
    empty dict. *)
Theorem X7_merged_styles (base : availability) (extra : json) :
  dict_of_dicts extra = true ->
  dom (fst (merge_overrides base extra)) = dom base ∪ style_keys extra.
Proof. intros Hshape. apply dom_merge_overrides, Hshape. Qed.

Lemma X7_merged_styles_witness :
  dom (fst (merge_overrides plain_only sample_table))
    = dom plain_only ∪ style_keys sample_table.
Proof.
  exact (X7_merged_styles plain_only sample_table eq_refl).
Defined.

(** X8. The styles of the output are exactly the identifiers of the
    catalog, the styles of the built-in table and the styles the override
    file lists, when that file is absent, unreadable or a dict of dicts. *)
Theorem X8_output_styles
    (REPO_ROOT : string) (catalog_file ovr_file : file) (utcnow : datetime)
    (recs : list (pykey * list pykey)) :
  catalog_records catalog_file = inr recs ->
  override_file_shaped ovr_file = true ->
  exists out stdout,
    main REPO_ROOT catalog_file ovr_file utcnow = Wrote out stdout /\
    dom (styles out) =
      list_to_set recs.*1 ∪ style_keys BUILTIN_OVERRIDES ∪ file_styles ovr_file.
Proof.
  intros Hrecs Hshape. apply seed_catalog_of_records in Hrecs.
  eexists _, _. split; [apply (main_wrote _ _ _ _ _ Hrecs)|]. cbn [styles].
  assert (dom (fst (merge_overrides (seed_records ∅ recs) BUILTIN_OVERRIDES))
          = list_to_set recs.*1 ∪ style_keys BUILTIN_OVERRIDES) as Hbuiltin.
  { rewrite dom_merge_overrides by reflexivity.
    rewrite dom_seed_records, dom_empty_L, (left_id_L ∅ (∪)). reflexivity. }
  destruct ovr_file as [| |doc]; cbn [apply_file_overrides exists_ load_json
                                      file_styles].
  - rewrite Hbuiltin. symmetry. apply (right_id_L ∅ (∪)).
  - unfold_result. rewrite Hbuiltin. symmetry. apply (right_id_L ∅ (∪)).
  - unfold_result. rewrite dom_merge_overrides by exact Hshape.
    rewrite Hbuiltin. reflexivity.
Qed.

Lemma X8_output_styles_witness :
  exists out stdout,
    main "/repo" sample_catalog sample_overrides sample_time
      = Wrote out stdout /\
    dom (styles out) =
      list_to_set sample_records.*1 ∪ style_keys BUILTIN_OVERRIDES
        ∪ file_styles sample_overrides.
Proof.
  exact (X8_output_styles "/repo" sample_catalog sample_overrides sample_time
           sample_records eq_refl eq_refl).
Defined.

Section KeyOrder.
Implicit Types (members : list (string * json)).

Lemma assoc_Some_elem_of members key v :
  NoDup members.*1 -> (assoc members key = Some v <-> (key, v) ∈ members).
Proof.
  induction members as [|[k w] rest IH]; intros Hnd.
  - split; [discriminate|]. intros Hin. apply elem_of_nil in Hin. destruct Hin.
  - rewrite fmap_cons in Hnd. apply NoDup_cons in Hnd as [Hfresh Hnd].
    cbn [assoc]. rewrite elem_of_cons. case_decide as Hk.
    + subst k. split.
      * intros [= ->]. left. reflexivity.
      * intros [[= ->]|Hin]; [reflexivity|]. exfalso. apply Hfresh.
        apply (list_elem_of_fmap_2 fst) in Hin. exact Hin.
    + rewrite (IH Hnd). split; [auto|].
      intros [[= -> ->]|Hin]; [congruence|exact Hin].
Qed.

Lemma assoc_Permutation members members' key :
  NoDup members.*1 -> members ≡ₚ members' ->
  assoc members' key = assoc members key.
Proof.
  intros Hnd Hperm. assert (NoDup members'.*1) as Hnd' by (rewrite <- Hperm; exact Hnd).
  apply option_eq. intros v.
  rewrite !assoc_Some_elem_of by assumption. rewrite Hperm. reflexivity.
Qed.

Lemma is_table_Permutation members members' :
  members ≡ₚ members' ->
  is_table (JObj members) = true -> is_table (JObj members') = true.
Proof.
  intros Hperm. cbn [is_table]. rewrite !andb_true_iff.
  intros [Hnd Hall]. split.
  - apply bool_decide_eq_true. apply bool_decide_eq_true in Hnd.
    rewrite <- Hperm. exact Hnd.
  - apply forallb_forall. intros m Hm.
    apply (proj1 (forallb_forall _ _) Hall).
    apply list_elem_of_In. rewrite Hperm. apply list_elem_of_In. exact Hm.
Qed.
End KeyOrder.

(** X9. For an override table the order of its keys does not matter:
    listing the same entries in another order gives the same dictionary
    after the merge. *)
Theorem X9_table_key_order_irrelevant
    (base : availability) (members members' : list (string * json)) :
  is_table (JObj members) = true ->
  members ≡ₚ members' ->
  merge_overrides base (JObj members') = merge_overrides base (JObj members).
Proof.
  intros Hwf Hperm.
  pose proof (is_table_Permutation _ _ Hperm Hwf) as Hwf'.
  destruct (merge_overrides_table base _ Hwf) as [Hok Hlk].
  destruct (merge_overrides_table base _ Hwf') as [Hok' Hlk'].
  apply injective_projections; [|congruence].
  apply availability_eq.
  - rewrite !dom_merge_overrides by (apply is_table_dict_of_dicts; assumption).
    cbn [style_keys]. rewrite Hperm. reflexivity.
  - intros s z. rewrite Hlk, Hlk'. cbn [layer_value].
    cbn [is_table] in Hwf. apply andb_true_iff in Hwf as [Hnd _].
    apply bool_decide_eq_true in Hnd.
    destruct s as [s'| | |], z as [z'| | |]; try reflexivity.
    cbn [table_value]. rewrite (assoc_Permutation _ _ s' Hnd Hperm).
    reflexivity.
Qed.

Lemma X9_table_key_order_irrelevant_witness :
  merge_overrides plain_only
    (JObj [("gift", JObj [("ONESIZE", JStr "no")]);
           ("sapphire", JObj [("T", JInt 1); ("L", JStr "")])])
  = merge_overrides plain_only
      (JObj [("sapphire", JObj [("T", JInt 1); ("L", JStr "")]);
             ("gift", JObj [("ONESIZE", JStr "no")])]).
Proof.
  apply (X9_table_key_order_irrelevant plain_only
           [("sapphire", JObj [("T", JInt 1); ("L", JStr "")]);
            ("gift", JObj [("ONESIZE", JStr "no")])]
           [("gift", JObj [("ONESIZE", JStr "no")]);
            ("sapphire", JObj [("T", JInt 1); ("L", JStr "")])]).
  - reflexivity.
  - apply perm_swap.
Defined.

(** X10. Whatever the override file holds, also a file on which the merge
    raises half-way, every pair of the built-in table is in the output of a
    run that writes: the file can change its value and cannot remove it. *)
Theorem X10_builtin_pairs_always_present
    (REPO_ROOT : string) (catalog_file ovr_file : file) (utcnow : datetime)
    (seeded : availability) (style_id sz : pykey) (v : json) :
  seed_catalog catalog_file = inr seeded ->
  layer_value BUILTIN_OVERRIDES style_id sz = Some v ->
  exists out stdout b,
    main REPO_ROOT catalog_file ovr_file utcnow = Wrote out stdout /\
    lookup2 (styles out) style_id sz = Some b.
Proof.
  intros Hseed Hv.
  assert (is_Some (lookup2 (apply_file_overrides
                              (fst (merge_overrides seeded BUILTIN_OVERRIDES))
                              ovr_file) style_id sz)) as [b Hb].
  { apply (grows_lookup2 _ _ _ _ (grows_apply_file_overrides _ ovr_file)).
    destruct (merge_overrides_table seeded BUILTIN_OVERRIDES
                BUILTIN_OVERRIDES_is_table) as [_ ->].
    rewrite Hv. eauto. }
  eexists _, _, b. split; [apply (main_wrote _ _ _ _ _ Hseed)|]. exact Hb.
Qed.

Lemma X10_builtin_pairs_always_present_witness :
  exists out stdout b,
    main "/repo" empty_catalog broken_overrides sample_time
      = Wrote out stdout /\
    lookup2 (styles out) (KStr "tiger") (KStr "S") = Some b.
Proof.
  exact (X10_builtin_pairs_always_present "/repo" empty_catalog
           broken_overrides sample_time ∅ (KStr "tiger") (KStr "S")
           (JBool true) eq_refl eq_refl).
Defined.

Lemma truthy_false_iff v : truthy v = false <-> falsy v.
Proof.
  unfold falsy. split.
  - destruct v as [|b|z|f|s|elems|members]; cbn [truthy]; intros Hv.
    + auto.
    + subst b. auto.
    + apply negb_false_iff, Z.eqb_eq in Hv. subst z. auto.
    + destruct f; try discriminate Hv. do 3 right. left. eauto.
    + apply negb_false_iff, String.eqb_eq in Hv. subst s. auto 10.
    + destruct elems; [auto 10|discriminate].
    + destruct members; [auto 10|discriminate].
  - intros [->|[->|[->|[[sgn ->]|[->|[->| ->]]]]]]; reflexivity.
Qed.

(** X11. The value [merge_overrides] stores for a pair of an override table
    is [False] exactly when the given value is [null], [false], zero (an
    integer or a float of either sign), the empty string, an empty list or
    an empty dict; every other value, the string ["false"] included, is
    stored as [True]. *)
Theorem X11_stored_false_iff_falsy
    (base : availability) (extra : json) (style_id sz : pykey) (v : json) :
  is_table extra = true ->
  layer_value extra style_id sz = Some v ->
  (lookup2 (fst (merge_overrides base extra)) style_id sz = Some false
   <-> falsy v) /\
  (lookup2 (fst (merge_overrides base extra)) style_id sz = Some true
   <-> ~ falsy v).
Proof.
  intros Hwf Hv.
  destruct (merge_overrides_table base extra Hwf) as [_ ->]. rewrite Hv.
  rewrite <- truthy_false_iff. destruct (truthy v); split; split;
    congruence.
Qed.

(** The string ["no"] given for (gift, ONESIZE) is not falsy. *)
Lemma X11_stored_false_iff_falsy_witness :
  (lookup2 (fst (merge_overrides ∅ sample_table)) (KStr "gift")
           (KStr "ONESIZE") = Some false <-> falsy (JStr "no")) /\
  (lookup2 (fst (merge_overrides ∅ sample_table)) (KStr "gift")
           (KStr "ONESIZE") = Some true <-> ~ falsy (JStr "no")).
Proof.
  exact (X11_stored_false_iff_falsy ∅ sample_table (KStr "gift")
           (KStr "ONESIZE") (JStr "no") eq_refl eq_refl).
Defined.

Section Timestamp.
Local Open Scope nat_scope.

Lemma N_range_forallb (P : N -> bool) (lo len : N) :
  forallb (fun k => P (lo + N.of_nat k)%N) (seq 0 (N.to_nat len)) = true ->
  forall n, (lo <= n)%N -> (n < lo + len)%N -> P n = true.
Proof.
  intros Hall n Hlo Hhi.
  replace n with (lo + N.of_nat (N.to_nat (n - lo)))%N by lia.
  apply (proj1 (forallb_forall _ _) Hall). apply in_seq. lia.
Qed.

Lemma length_two_digits n :
  (n < 100)%N -> String.length (two_digits n) = 2.
Proof.
  intros Hn. apply Nat.eqb_eq.
  apply (N_range_forallb
           (fun n => String.length (two_digits n) =? 2) 0%N 100%N);
    [vm_compute; reflexivity|lia|lia].
Qed.

Lemma length_pretty_year y :
  (1000 <= y)%N -> (y < 10000)%N -> String.length (pretty y) = 4.
Proof.
  intros Hlo Hhi. apply Nat.eqb_eq.
  apply (N_range_forallb
           (fun y => String.length (pretty y) =? 4) 1000%N 9000%N);
    [vm_compute; reflexivity|lia|lia].
Qed.

Lemma length_string_app (a b : string) :
  String.length (a +:+ b) = String.length a + String.length b.
Proof.
  induction a as [|c a IH]; [reflexivity|].
  change (S (String.length (a +:+ b)) = S (String.length a + String.length b)).
  f_equal. exact IH.
Qed.

Lemma get_string_app_skip (a b : string) (n k : nat) :
  String.length a = k -> String.get (n + k) (a +:+ b) = String.get n b.
Proof. intros <-. symmetry. apply append_correct2. Qed.
End Timestamp.

(** X12. For a time of the clock with a four-digit year, [updatedAt] has
    the fixed width of [YYYY-MM-DDTHH:MM:SSZ]: twenty characters, with [T]
    at index 10 and [Z] at index 19. *)
Theorem X12_updatedAt_fixed_width (t : datetime) :
  datetime_ok t = true ->
  String.length (strftime t) = 20%nat /\
  String.get 10 (strftime t) = Some "T"%char /\
  String.get 19 (strftime t) = Some "Z"%char.
Proof.
  unfold datetime_ok. rewrite !andb_true_iff.
  intros [[[[[[Hy1 Hy2] Hmo] Hd] Hh] Hmi] Hs].
  apply N.leb_le in Hy1.
  apply N.ltb_lt in Hy2, Hmo, Hd, Hh, Hmi, Hs.
  pose proof (length_pretty_year _ Hy1 Hy2) as Ly.
  pose proof (length_two_digits _ Hmo) as Lmo.
  pose proof (length_two_digits _ Hd) as Ld.
  pose proof (length_two_digits _ Hh) as Lh.
  pose proof (length_two_digits _ Hmi) as Lmi.
  pose proof (length_two_digits _ Hs) as Ls.
  unfold strftime. split; [|split].
  - rewrite !length_string_app, Ly, Lmo, Ld, Lh, Lmi, Ls. reflexivity.
  - rewrite (get_string_app_skip _ _ 6 4 Ly).
    rewrite (get_string_app_skip "-" _ 5 1 eq_refl).
    rewrite (get_string_app_skip _ _ 3 2 Lmo).
    rewrite (get_string_app_skip "-" _ 2 1 eq_refl).
    rewrite (get_string_app_skip _ _ 0 2 Ld).
    reflexivity.
  - rewrite (get_string_app_skip _ _ 15 4 Ly).
    rewrite (get_string_app_skip "-" _ 14 1 eq_refl).
    rewrite (get_string_app_skip _ _ 12 2 Lmo).
    rewrite (get_string_app_skip "-" _ 11 1 eq_refl).
    rewrite (get_string_app_skip _ _ 9 2 Ld).
    rewrite (get_string_app_skip "T" _ 8 1 eq_refl).
    rewrite (get_string_app_skip _ _ 6 2 Lh).
    rewrite (get_string_app_skip ":" _ 5 1 eq_refl).
    rewrite (get_string_app_skip _ _ 3 2 Lmi).
    rewrite (get_string_app_skip ":" _ 2 1 eq_refl).
    rewrite (get_string_app_skip _ _ 0 2 Ls).
    reflexivity.
Qed.

Lemma X12_updatedAt_fixed_width_witness :
  String.length (strftime sample_time) = 20%nat /\
  String.get 10 (strftime sample_time) = Some "T"%char /\
  String.get 19 (strftime sample_time) = Some "Z"%char.
Proof.
  exact (X12_updatedAt_fixed_width sample_time eq_refl).
Defined.

Section BadRecords.

Lemma succeeds_style_record st : succeeds (style_record st) = style_ok st.
Proof.
  rewrite <- (succeeds_seed_style ∅ st), seed_style_record. unfold_result.
  destruct (style_record st); reflexivity.
Qed.

Lemma mapM_style_record_first_bad pre st post e :
  forallb style_ok pre = true ->
  style_record st = inl e ->
  mapM style_record (pre ++ st :: post) = inl e.
Proof.
  intros Hpre Hbad. induction pre as [|x pre IH].
  - cbn [app mapM]. unfold_result. rewrite Hbad. reflexivity.
  - cbn [forallb] in Hpre. apply andb_true_iff in Hpre as [Hx Hpre].
    rewrite <- succeeds_style_record in Hx.
    cbn [app mapM]. unfold_result.
    destruct (style_record x) as [|r]; [discriminate Hx|].
    rewrite (IH Hpre). reflexivity.
Qed.

Lemma catalog_records_styles members sts :
  assoc members "styles" = Some (JArr sts) ->
  catalog_records (Holds (JObj members)) = mapM style_record sts.
Proof.
  intros Hstyles. unfold catalog_records, load_json, get. unfold_result.
  rewrite Hstyles. reflexivity.
Qed.
End BadRecords.

(** X13. One style record on which the seeding loop raises makes the whole
    run end in that exception, with nothing written: the records before it
    (all well-shaped) and after it, and the override file, do not matter. *)
Theorem X13_first_bad_record_is_fatal
    (REPO_ROOT : string) (members : list (string * json))
    (pre post : list json) (st : json) (e : exn)
    (ovr_file : file) (utcnow : datetime) :
  assoc members "styles" = Some (JArr (pre ++ st :: post)) ->
  forallb style_ok pre = true ->
  style_record st = inl e ->
  main REPO_ROOT (Holds (JObj members)) ovr_file utcnow = Uncaught e.
Proof.
  intros Hstyles Hpre Hbad. apply main_uncaught.
  rewrite seed_catalog_records, (catalog_records_styles _ _ Hstyles).
  rewrite (mapM_style_record_first_bad _ _ _ _ Hpre Hbad). reflexivity.
Qed.

Lemma X13_first_bad_record_is_fatal_witness :
  main "/repo" (Holds (JObj one_bad_record_catalog)) sample_overrides
       sample_time = Uncaught KeyError.
Proof.
  exact (X13_first_bad_record_is_fatal "/repo" one_bad_record_catalog
           [JObj [("id", JStr "plain"); ("sizes", JArr [JStr "S"])]]
           [JObj [("id", JStr "bare")]]
           (JObj [("sizes", JArr [JStr "S"])]) KeyError
           sample_overrides sample_time eq_refl eq_refl eq_refl).
Defined.
